(** * PathUtils: platform path resolution, directory creation, native strings

    A shallow embedding of [src/PathUtils.cpp] (namespace [Framework],
    class [PathUtils]) together with the properties stated for it.

    The C++ code talks to three things outside of itself: the filesystem
    library ([fs::exists], [fs::create_directory], [fs::create_directories]),
    the operating system (executable location, environment variables, working
    directory) and two function-local statics.  The embedding threads a
    [World] through every call: the filesystem state, the statics and the
    chronological trace of library and OS calls.  Exceptions are results. *)

From Stdlib Require Import ZArith List Bool Ascii String Lia.
From stdpp Require Import base option list strings gmap.

Local Open Scope string_scope.
Local Open Scope list_scope.

(** ** Paths

    An [fs::path] is seen through its iterator: the sequence of its elements
    (root name, root directory, file names), in order.  ["/opt/app"] is
    [["/"; "opt"; "app"]]. *)

Definition path := list string.

(** [p / e] and [p /= e] for a relative element [e]. In the loop of
    [EnsurePathExists] the elements are those of one path taken in order, so
    the accumulated value is the next longer prefix. *)
Definition path_append (p : path) (e : string) : path := p ++ [e].

(** [p / q] for a relative path [q] such as ["usr/share"]. *)
Definition path_concat (p q : path) : path := p ++ q.

(** [p.parent_path()] for a path that ends in a file name. *)
Definition parent_path (p : path) : path := removelast p.

(** Elements of a POSIX pathname given as a string: a leading separator is the
    root directory, the names between separators follow. *)
Fixpoint split_names (cur : string) (s : string) : list string :=
  match s with
  | EmptyString => if decide (cur = EmptyString) then [] else [cur]
  | String c s' =>
      if decide (c = "/"%char)
      then (if decide (cur = EmptyString) then [] else [cur]) ++ split_names EmptyString s'
      else split_names (cur +:+ String c EmptyString) s'
  end.

Definition fs_path (s : string) : path :=
  match s with
  | String c _ =>
      if decide (c = "/"%char) then "/" :: split_names EmptyString s else split_names EmptyString s
  | EmptyString => []
  end.

(** ** Error codes of the platform headers *)

Definition ERROR_FILE_NOT_FOUND : Z := 2.
Definition ERROR_ACCESS_DENIED : Z := 5.
Definition ENOENT : Z := 2.
Definition EACCES : Z := 13.

(** Folder identifiers of [shlobj.h]. *)
Definition CSIDL_PERSONAL : Z := 5.         (* 0x0005 *)
Definition CSIDL_APPDATA : Z := 26.         (* 0x001a *)
Definition CSIDL_LOCAL_APPDATA : Z := 28.   (* 0x001c *)

(** ** Target platforms and the preprocessor symbols they define *)

Inductive Platform :=
| Win32App        (* _WIN32, WINAPI_PARTITION_APP *)
| Win32Desktop    (* _WIN32 *)
| Apple           (* __APPLE__ *)
| Android         (* __ANDROID__, and __linux__ with it *)
| Linux           (* __linux__ *)
| FreeBSD         (* __FreeBSD__ *)
| Emscripten      (* __EMSCRIPTEN__ *)
| OtherPlatform.

Definition def_WIN32 (pl : Platform) : bool :=
  match pl with Win32App | Win32Desktop => true | _ => false end.
Definition def_PARTITION_APP (pl : Platform) : bool :=
  match pl with Win32App => true | _ => false end.
Definition def_APPLE (pl : Platform) : bool :=
  match pl with Apple => true | _ => false end.
Definition def_ANDROID (pl : Platform) : bool :=
  match pl with Android => true | _ => false end.
Definition def_linux (pl : Platform) : bool :=
  match pl with Linux | Android => true | _ => false end.
Definition def_FreeBSD (pl : Platform) : bool :=
  match pl with FreeBSD => true | _ => false end.
Definition def_EMSCRIPTEN (pl : Platform) : bool :=
  match pl with Emscripten => true | _ => false end.

(** ** The filesystem library, as an interface

    [fs_exists s p] is [fs::exists(p, ec)]: the returned flag and
    [ec.value()] (0 when [ec] is clear).
    [fs_create_directory s p] is [fs::create_directory(p)], the overload
    without an [error_code]: it reports failure by throwing
    [fs::filesystem_error], here [None]; [Some s'] is a normal return, whether
    or not a directory was made.
    [fs_create_directories s p] is [fs::create_directories(p, ec)]: failure is
    left in [ec], which the caller drops. *)

Class FileSystem (FS : Type) := {
  fs_exists : FS -> path -> bool * Z;
  fs_create_directory : FS -> path -> option FS;
  fs_create_directories : FS -> path -> FS
}.

(** What a filesystem is expected to satisfy when nobody else touches it. *)
Class FileSystemLaws (FS : Type) `{FileSystem FS} : Prop := {
  create_then_exists : forall (s s' : FS) (p : path),
    fs_create_directory s p = Some s' -> fs_exists s' p = (true, 0%Z);
  create_keeps_prefixes : forall (s s' : FS) (p q : path),
    fs_create_directory s q = Some s' ->
    p `prefix_of` q -> p <> q -> fs_exists s' p = fs_exists s p
}.

(** ** Operating-system facts read by the module *)

Record Env := {
  (** [getenv(name)]; [None] is the null pointer *)
  getenv : string -> option string;
  (** the platform's query for the path of the running executable
      ([GetModuleFileNameW], [_NSGetExecutablePath], [readlink] on
      [/proc/self/exe]); [None] when the call reports failure *)
  executable_query : option path;
  (** what the caller's buffer holds when the query wrote nothing to it *)
  stale_buffer : path;
  (** [fs::current_path()], the overload without an [error_code]; [None]
      when it throws *)
  current_path : option path;
  (** [[[NSBundle mainBundle] resourcePath]]; [None] when either is nil *)
  bundle_resource_path : option path
}.

(** ** Process state *)

Record Statics := {
  (** the two statics of [GetTeknoParrotBaseDirectory] *)
  teknoParrotPath : path;
  initialized : bool;
  (** the Android file-scope statics, by their native string *)
  s_filesDirPath : string;
  s_cacheDirPath : string
}.

Definition initial_statics : Statics :=
  {| teknoParrotPath := []; initialized := false;
     s_filesDirPath := EmptyString; s_cacheDirPath := EmptyString |}.

Inductive Event :=
| EvExists (p : path) (result : bool) (ec : Z)
| EvCreateDirectory (p : path) (returned : bool)
| EvCreateDirectories (p : path)
| EvGetenv (name : string)
| EvExecutableQuery
| EvCurrentPath
| EvBundleQuery.

Record World (FS : Type) := mkWorld {
  w_fs : FS;
  w_statics : Statics;
  w_trace : list Event
}.
Arguments mkWorld {FS} _ _ _.
Arguments w_fs {FS} _.
Arguments w_statics {FS} _.
Arguments w_trace {FS} _.

Inductive Exception :=
| runtime_error (what : string)
| filesystem_error (p : path).   (* the path it is about, empty when none *)

Inductive Result (A : Type) :=
| Returned (a : A)
| Thrown (e : Exception)
| Undefined.   (* behaviour the language leaves undefined *)
Arguments Returned {A} _.
Arguments Thrown {A} _.
Arguments Undefined {A}.

(** ** A state-and-exception monad over the world *)

Definition M (FS A : Type) : Type := World FS -> Result A * World FS.

Definition ret {FS A} (a : A) : M FS A := fun w => (Returned a, w).

Definition bind {FS A B} (m : M FS A) (k : A -> M FS B) : M FS B :=
  fun w =>
    match m w with
    | (Returned a, w') => k a w'
    | (Thrown e, w') => (Thrown e, w')
    | (Undefined, w') => (Undefined, w')
    end.

Definition throw {FS A} (e : Exception) : M FS A := fun w => (Thrown e, w).

Definition undefined_behaviour {FS A} : M FS A := fun w => (Undefined, w).

Declare Scope world_scope.
Delimit Scope world_scope with world.
Notation "'let*' x ':=' m 'in' k" := (bind m (fun x => k))
  (at level 10, x binder, m at level 100, k at level 200) : world_scope.
Notation "m ;;; k" := (bind m (fun _ => k))
  (at level 100, k at level 200, right associativity) : world_scope.
Local Open Scope world_scope.

Definition log {FS} (ev : Event) : M FS unit :=
  fun w => (Returned tt, mkWorld (w_fs w) (w_statics w) (w_trace w ++ [ev])).

Definition get_statics {FS} : M FS Statics :=
  fun w => (Returned (w_statics w), w).

Definition put_statics {FS} (st : Statics) : M FS unit :=
  fun w => (Returned tt, mkWorld (w_fs w) st (w_trace w)).

Section Library.
Context {FS : Type} `{FileSystem FS}.

(** [fs::exists(p, ec)] *)
Definition exists_ec (p : path) : M FS (bool * Z) :=
  fun w =>
    let r := fs_exists (w_fs w) p in
    (Returned r,
     mkWorld (w_fs w) (w_statics w) (w_trace w ++ [EvExists p (fst r) (snd r)])).

(** [fs::create_directory(p)] *)
Definition create_directory (p : path) : M FS unit :=
  fun w =>
    match fs_create_directory (w_fs w) p with
    | Some s' =>
        (Returned tt,
         mkWorld s' (w_statics w) (w_trace w ++ [EvCreateDirectory p true]))
    | None =>
        (Thrown (filesystem_error p),
         mkWorld (w_fs w) (w_statics w) (w_trace w ++ [EvCreateDirectory p false]))
    end.

(** [fs::create_directories(p, ec)], [ec] not looked at afterwards *)
Definition create_directories_ec (p : path) : M FS unit :=
  fun w =>
    (Returned tt,
     mkWorld (fs_create_directories (w_fs w) p) (w_statics w)
             (w_trace w ++ [EvCreateDirectories p])).

(** ** [PathUtils::EnsurePathExists] *)

(** One turn of the [for] loop, [buildPath] already extended.  [None] from
    the error-code inspection is the [continue]. *)
Definition EnsurePathExists_body (pl : Platform) (buildPath : path) : M FS unit :=
  let* '(exists_, existsErrorCode) := exists_ec buildPath in
  let* decision :=
    (if negb (existsErrorCode =? 0)%Z then
       if def_WIN32 pl then
         if (existsErrorCode =? ERROR_ACCESS_DENIED)%Z then ret None
         else if (existsErrorCode =? ERROR_FILE_NOT_FOUND)%Z then ret (Some false)
         else throw (runtime_error "Couldn't ensure that path exists.")
       else
         if (existsErrorCode =? ENOENT)%Z then ret (Some false)
         else throw (runtime_error "Couldn't ensure that path exists.")
     else ret (Some exists_)) in
  match decision with
  | None => ret tt
  | Some exists_ =>
      if negb exists_ then create_directory buildPath else ret tt
  end.

Fixpoint EnsurePathExists_loop (pl : Platform) (buildPath : path)
         (pathIterator : list string) : M FS unit :=
  match pathIterator with
  | [] => ret tt
  | element :: pathIterator' =>
      let buildPath := path_append buildPath element in
      EnsurePathExists_body pl buildPath ;;;
      EnsurePathExists_loop pl buildPath pathIterator'
  end.

Definition EnsurePathExists (pl : Platform) (p : path) : M FS unit :=
  EnsurePathExists_loop pl [] p.

End Library.

(** ** The resolvers *)

Section Resolvers.
Context {FS : Type} `{FileSystem FS}.

(** [fs::current_path()]: the working directory, or the library's
    exception. *)
Definition fs_current_path (env : Env) : M FS path :=
  log EvCurrentPath ;;;
  match current_path env with
  | Some cwd => ret cwd
  | None => throw (filesystem_error [])
  end.

(** [GetExecutableDirectory].  The Windows branch builds [exePath] from the
    buffer without looking at what [GetModuleFileNameW] returned. *)
Definition GetExecutableDirectory (pl : Platform) (env : Env) : M FS path :=
  if def_WIN32 pl then
    log EvExecutableQuery ;;;
    let buffer :=
      match executable_query env with
      | Some written => written
      | None => stale_buffer env
      end in
    let exePath := buffer in
    ret (parent_path exePath)
  else if def_APPLE pl then
    log EvExecutableQuery ;;;
    match executable_query env with
    | Some exe => ret (parent_path exe)
    | None => fs_current_path env
    end
  else if def_linux pl || def_FreeBSD pl then
    log EvExecutableQuery ;;;
    match executable_query env with
    | Some exe => ret (parent_path exe)
    | None => fs_current_path env
    end
  else
    fs_current_path env.

(** [GetTeknoParrotBaseDirectory] *)
Definition GetTeknoParrotBaseDirectory (pl : Platform) (env : Env) : M FS path :=
  let* st := get_statics in
  (if negb (initialized st) then
     let* exeDir := GetExecutableDirectory pl env in
     let teknoParrotPath' := path_append exeDir "TeknoParrot" in
     put_statics {| teknoParrotPath := teknoParrotPath';
                    initialized := initialized st;
                    s_filesDirPath := s_filesDirPath st;
                    s_cacheDirPath := s_cacheDirPath st |} ;;;
     let* '(exists_, _) := exists_ec teknoParrotPath' in
     (if negb exists_ then create_directories_ec teknoParrotPath' else ret tt) ;;;
     put_statics {| teknoParrotPath := teknoParrotPath';
                    initialized := true;
                    s_filesDirPath := s_filesDirPath st;
                    s_cacheDirPath := s_cacheDirPath st |}
   else ret tt) ;;;
  let* st := get_statics in
  ret (teknoParrotPath st).

(** The body shared, in the source by repetition, by the resolvers that
    build a path under the base directory, ensure it and return it. *)
Definition ensured_under_base (pl : Platform) (env : Env) (sub : path) : M FS path :=
  let* base := GetTeknoParrotBaseDirectory pl env in
  let p := path_concat base sub in
  EnsurePathExists pl p ;;;
  ret p.

(** The resolvers are [None] on a platform whose branch does not define
    them. *)

Definition GetRoamingDataPath (pl : Platform) : option (Env -> M FS path) :=
  if def_WIN32 pl then
    if def_PARTITION_APP pl then None
    else Some (fun env => ensured_under_base pl env ["AppData"; "Roaming"])
  else if def_APPLE pl then
    Some (fun env => ensured_under_base pl env ["AppData"; "Roaming"])
  else if def_ANDROID pl then
    Some (fun env => ensured_under_base pl env ["AppData"; "Roaming"])
  else if def_linux pl || def_FreeBSD pl || def_EMSCRIPTEN pl then
    Some (fun env => ensured_under_base pl env ["AppData"; "Roaming"])
  else None.

Definition GetPersonalDataPath (pl : Platform) : option (Env -> M FS path) :=
  if def_WIN32 pl then
    if def_PARTITION_APP pl
    then Some (fun env => ensured_under_base pl env ["AppData"; "Local"])
    else Some (fun env => ensured_under_base pl env ["Documents"])
  else if def_APPLE pl then
    Some (fun env => ensured_under_base pl env ["Documents"])
  else if def_ANDROID pl then
    Some (fun env => ensured_under_base pl env ["Documents"])
  else if def_linux pl || def_FreeBSD pl || def_EMSCRIPTEN pl then
    Some (fun env => ensured_under_base pl env ["Documents"])
  else
    Some (fun env => ensured_under_base pl env ["Documents"]).

Definition GetCachePath (pl : Platform) : option (Env -> M FS path) :=
  if def_WIN32 pl then
    if def_PARTITION_APP pl then None
    else Some (fun env => ensured_under_base pl env ["AppData"; "Local"; "Cache"])
  else if def_APPLE pl then
    Some (fun env => ensured_under_base pl env ["Cache"])
  else if def_ANDROID pl then
    Some (fun env => ensured_under_base pl env ["Cache"])
  else if def_linux pl || def_FreeBSD pl || def_EMSCRIPTEN pl then
    Some (fun env => ensured_under_base pl env ["Cache"])
  else None.

(** [GetAppResourcesPath] of the Linux, FreeBSD and Emscripten branch *)
Definition GetAppResourcesPath_unix (pl : Platform) (env : Env) : M FS path :=
  log (EvGetenv "APPIMAGE") ;;;
  let* found :=
    (match getenv env "APPIMAGE" with
     | Some _ =>
         log (EvGetenv "APPDIR") ;;;
         match getenv env "APPDIR" with
         | None => undefined_behaviour   (* fs::path from a null pointer *)
         | Some appDir =>
             let appImagePath := path_concat (fs_path appDir) ["usr"; "share"] in
             let* '(exists_, ec) := exists_ec appImagePath in
             if exists_ && (ec =? 0)%Z then ret (Some appImagePath) else ret None
         end
     | None => ret None
     end) in
  match found with
  | Some appImagePath => ret appImagePath
  | None =>
      let flatpakPath := ["/"; "app"; "share"] in
      let* '(exists_, existsErrorCode) := exists_ec flatpakPath in
      if (existsErrorCode =? 0)%Z && exists_ then ret flatpakPath
      else GetExecutableDirectory pl env
  end.

Definition GetAppResourcesPath (pl : Platform) : option (Env -> M FS path) :=
  if def_WIN32 pl then
    if def_PARTITION_APP pl then None
    else Some (fun env => GetExecutableDirectory pl env)
  else if def_APPLE pl then
    Some (fun env =>
            log EvBundleQuery ;;;
            match bundle_resource_path env with
            | Some bundlePath => ret bundlePath
            | None => GetExecutableDirectory pl env
            end)
  else if def_ANDROID pl then
    Some (fun env => GetTeknoParrotBaseDirectory pl env)
  else if def_linux pl || def_FreeBSD pl || def_EMSCRIPTEN pl then
    Some (fun env => GetAppResourcesPath_unix pl env)
  else None.

(** [SetFilesDirPath] and [SetCacheDirPath], Android only *)
Definition SetFilesDirPath (pl : Platform) : option (string -> M FS unit) :=
  if negb (def_WIN32 pl) && negb (def_APPLE pl) && def_ANDROID pl then
    Some (fun filesDirPath =>
            let* st := get_statics in
            put_statics {| teknoParrotPath := teknoParrotPath st;
                           initialized := initialized st;
                           s_filesDirPath := filesDirPath;
                           s_cacheDirPath := s_cacheDirPath st |})
  else None.

Definition SetCacheDirPath (pl : Platform) : option (string -> M FS unit) :=
  if negb (def_WIN32 pl) && negb (def_APPLE pl) && def_ANDROID pl then
    Some (fun cacheDirPath =>
            let* st := get_statics in
            put_statics {| teknoParrotPath := teknoParrotPath st;
                           initialized := initialized st;
                           s_filesDirPath := s_filesDirPath st;
                           s_cacheDirPath := cacheDirPath |})
  else None.

(** [GetPathFromCsidl], Windows desktop only.  [csidl & 0x00ff] drops the
    flag bits; the sub-directories are not ensured. *)
Definition GetPathFromCsidl (pl : Platform) : option (Z -> Env -> M FS path) :=
  if def_WIN32 pl && negb (def_PARTITION_APP pl) then
    Some (fun csidl env =>
            let* basePath := GetTeknoParrotBaseDirectory pl env in
            let id := Z.land csidl 255 in
            if (id =? CSIDL_APPDATA)%Z then
              ret (path_append (path_append basePath "AppData") "Roaming")
            else if (id =? CSIDL_LOCAL_APPDATA)%Z then
              ret (path_append (path_append basePath "AppData") "Local")
            else if (id =? CSIDL_PERSONAL)%Z then
              ret (path_append basePath "Documents")
            else
              ret (path_append (path_append basePath "AppData") "Local"))
  else None.

End Resolvers.

(** ** A simulated filesystem

    A finite map from paths to nodes, used to run the module on concrete
    inputs.  The entry of the empty path stands for the directory that
    relative one-element paths are created in. *)

Inductive Node :=
| Directory (writable : bool)
| RegularFile
| ProbeFault (ec : Z).   (* probing this path fails with [ec] *)

Module SimFS.

Definition sim_exists (s : gmap path Node) (p : path) : bool * Z :=
  match s !! p with
  | Some (Directory _) => (true, 0%Z)
  | Some RegularFile => (true, 0%Z)
  | Some (ProbeFault ec) => (false, ec)
  | None => (false, 0%Z)
  end.

(** Making [p] needs a writable parent directory; an existing directory
    at [p] is not an error, anything else there is. *)
Definition sim_create_directory (s : gmap path Node) (p : path)
  : option (gmap path Node) :=
  match s !! p with
  | Some (Directory _) => Some s
  | Some _ => None
  | None =>
      match s !! parent_path p with
      | Some (Directory true) => Some (<[p := Directory true]> s)
      | _ => None
      end
  end.

(** Prefix by prefix, stopping at the first failure. *)
Fixpoint sim_create_from (s : gmap path Node) (built : path)
         (rest : list string) : gmap path Node :=
  match rest with
  | [] => s
  | e :: rest' =>
      match sim_create_directory s (path_append built e) with
      | Some s' => sim_create_from s' (path_append built e) rest'
      | None => s
      end
  end.

Definition sim_create_directories (s : gmap path Node) (p : path)
  : gmap path Node :=
  sim_create_from s [] p.

#[global] Instance sim_filesystem : FileSystem (gmap path Node) := {
  fs_exists := sim_exists;
  fs_create_directory := sim_create_directory;
  fs_create_directories := sim_create_directories
}.

Definition world (s : gmap path Node) : World (gmap path Node) :=
  mkWorld s initial_statics [].

End SimFS.

(** ** Native strings

    [fs::path::string_type] is [std::string] on the POSIX targets and
    [std::wstring] on Windows.  Here a path is seen through [native()]: the
    string it was built from. *)

Definition std_string := list Z.   (* [char] values, 0..255 *)
Definition std_wstring := list Z.  (* [wchar_t] code units, 0..65535 *)

Definition string_type (wide : bool) : Type :=
  if wide then std_wstring else std_string.

Record native_path (wide : bool) := fs_path_of { native : string_type wide }.
Arguments fs_path_of {wide} _.
Arguments native {wide} _.

Module Utf8.

Local Open Scope Z_scope.

Definition REPLACEMENT : Z := 65533.   (* U+FFFD *)

Definition is_continuation (b : Z) : bool := (128 <=? b) && (b <? 192).
Definition is_high_surrogate (u : Z) : bool := (55296 <=? u) && (u <? 56320).
Definition is_low_surrogate (u : Z) : bool := (56320 <=? u) && (u <? 57344).

(** Modelled from the spec: [Utf8.h] is not among the sources.  The spec
    asks for the standard UTF-8 transformation of the wide (UTF-16)
    string; an unpaired surrogate is replaced by U+FFFD.  This is the
    UTF-16 reading of the wide string as code points. *)
Fixpoint code_points_of_wide (w : std_wstring) : list Z :=
  match w with
  | [] => []
  | u :: t =>
      if is_high_surrogate u then
        match t with
        | v :: t' =>
            if is_low_surrogate v
            then (65536 + (u - 55296) * 1024 + (v - 56320)) :: code_points_of_wide t'
            else REPLACEMENT :: code_points_of_wide t
        | [] => [REPLACEMENT]
        end
      else if is_low_surrogate u then REPLACEMENT :: code_points_of_wide t
      else u :: code_points_of_wide t
  end.

(** Modelled from the spec: the UTF-8 bytes of one code point. *)
Definition encode_code_point (cp : Z) : list Z :=
  if cp <? 128 then [cp]
  else if cp <? 2048 then [192 + cp / 64; 128 + cp mod 64]
  else if cp <? 65536 then
    [224 + cp / 4096; 128 + (cp / 64) mod 64; 128 + cp mod 64]
  else
    [240 + cp / 262144; 128 + (cp / 4096) mod 64;
     128 + (cp / 64) mod 64; 128 + cp mod 64].

(** Modelled from the spec: [Framework::Utf8::ConvertTo], wide string to
    UTF-8. *)
Definition ConvertTo (w : std_wstring) : std_string :=
  flat_map encode_code_point (code_points_of_wide w).

(** Modelled from the spec: the code points of a UTF-8 byte string; a byte
    that does not start a complete sequence is replaced by U+FFFD. *)
Fixpoint code_points_of_utf8 (s : std_string) : list Z :=
  match s with
  | [] => []
  | b0 :: t =>
      if b0 <? 128 then b0 :: code_points_of_utf8 t
      else if (192 <=? b0) && (b0 <? 224) then
        match t with
        | b1 :: t1 =>
            if is_continuation b1
            then ((b0 - 192) * 64 + (b1 - 128)) :: code_points_of_utf8 t1
            else REPLACEMENT :: code_points_of_utf8 t
        | _ => REPLACEMENT :: code_points_of_utf8 t
        end
      else if (224 <=? b0) && (b0 <? 240) then
        match t with
        | b1 :: b2 :: t2 =>
            if is_continuation b1 && is_continuation b2
            then ((b0 - 224) * 4096 + (b1 - 128) * 64 + (b2 - 128))
                   :: code_points_of_utf8 t2
            else REPLACEMENT :: code_points_of_utf8 t
        | _ => REPLACEMENT :: code_points_of_utf8 t
        end
      else if (240 <=? b0) && (b0 <? 248) then
        match t with
        | b1 :: b2 :: b3 :: t3 =>
            if is_continuation b1 && is_continuation b2 && is_continuation b3
            then ((b0 - 240) * 262144 + (b1 - 128) * 4096
                  + (b2 - 128) * 64 + (b3 - 128))
                   :: code_points_of_utf8 t3
            else REPLACEMENT :: code_points_of_utf8 t
        | _ => REPLACEMENT :: code_points_of_utf8 t
        end
      else REPLACEMENT :: code_points_of_utf8 t
  end.

(** Modelled from the spec: the UTF-16 code units of one code point. *)
Definition wide_of_code_point (cp : Z) : list Z :=
  if cp <? 65536 then [cp]
  else [55296 + (cp - 65536) / 1024; 56320 + (cp - 65536) mod 1024].

(** Modelled from the spec: [Framework::Utf8::ConvertFrom], UTF-8 to wide
    string. *)
Definition ConvertFrom (s : std_string) : std_wstring :=
  flat_map wide_of_code_point (code_points_of_utf8 s).

(** The range of code points. *)
Definition in_code_space (cp : Z) : Prop := 0 <= cp < 1114112.

(** Wide strings whose characters are representable: every unit fits 16
    bits and surrogates come in high-low pairs. *)
Fixpoint well_formed_wide (w : std_wstring) : bool :=
  match w with
  | [] => true
  | u :: t =>
      (0 <=? u) && (u <? 65536) &&
      if is_high_surrogate u then
        match t with
        | v :: t' => is_low_surrogate v && well_formed_wide t'
        | [] => false
        end
      else negb (is_low_surrogate u) && well_formed_wide t
  end.

End Utf8.

(** [GetNativeStringFromPathInternal], one specialisation per string type *)
Definition GetNativeStringFromPathInternal (wide : bool)
  : string_type wide -> std_string :=
  match wide with
  | false => fun str => str
  | true => fun str => Utf8.ConvertTo str
  end.

(** [GetPathFromNativeStringInternal<StringType>] *)
Definition GetPathFromNativeStringInternal (wide : bool)
  : std_string -> string_type wide :=
  match wide with
  | false => fun str => str
  | true => fun str => Utf8.ConvertFrom str
  end.

(** [PathUtils::GetNativeStringFromPath] *)
Definition GetNativeStringFromPath {wide : bool} (p : native_path wide) : std_string :=
  GetNativeStringFromPathInternal wide (native p).

(** [PathUtils::GetPathFromNativeString] *)
Definition GetPathFromNativeString (wide : bool) (str : std_string) : native_path wide :=
  let cvtStr := GetPathFromNativeStringInternal wide str in
  fs_path_of cvtStr.

(** Paths made of valid portable characters: any byte string, or a wide
    string of representable characters. *)
Definition portable {wide : bool} : native_path wide -> bool :=
  match wide with
  | false => fun _ => true
  | true => fun p => Utf8.well_formed_wide (native p)
  end.

(** ** Vocabulary of the statements *)

(** The events a call added to the trace. *)
Definition new_events {FS} (before after : World FS) : list Event :=
  drop (length (w_trace before)) (w_trace after).

Definition probed_path (ev : Event) : option path :=
  match ev with EvExists p _ _ => Some p | _ => None end.


(** Paths probed, and paths a creation was attempted for, in order. *)
Definition probes (tr : list Event) : list path := omap probed_path tr.

(** The code's "not found" for the platform. *)
Definition not_found_code (pl : Platform) : Z :=
  if def_WIN32 pl then ERROR_FILE_NOT_FOUND else ENOENT.

(** An error code of a probe that is neither clear, nor not-found, nor, on
    Windows, access-denied. *)
Definition unexpected_probe_error (pl : Platform) (ec : Z) : bool :=
  negb (ec =? 0)%Z && negb (ec =? not_found_code pl)%Z
  && negb (def_WIN32 pl && (ec =? ERROR_ACCESS_DENIED)%Z).

(** What one probe result means to the loop. *)
Inductive Verdict := Present | Absent | Fatal.

Definition verdict (pl : Platform) (result : bool) (ec : Z) : Verdict :=
  if (ec =? 0)%Z then (if result then Present else Absent)
  else if unexpected_probe_error pl ec then Fatal
  else if (ec =? not_found_code pl)%Z then Absent
  else Present.

(** The shape of a run of the loop from [built] over the remaining elements:
    its events and its result. *)
Inductive walk (pl : Platform)
  : path -> list string -> list Event -> Result unit -> Prop :=
| walk_end built :
    walk pl built [] [] (Returned tt)
| walk_present built e rest r ec tr res :
    verdict pl r ec = Present ->
    walk pl (path_append built e) rest tr res ->
    walk pl built (e :: rest) (EvExists (path_append built e) r ec :: tr) res
| walk_created built e rest r ec tr res :
    verdict pl r ec = Absent ->
    walk pl (path_append built e) rest tr res ->
    walk pl built (e :: rest)
         (EvExists (path_append built e) r ec
            :: EvCreateDirectory (path_append built e) true :: tr) res
| walk_create_failed built e rest r ec :
    verdict pl r ec = Absent ->
    walk pl built (e :: rest)
         [EvExists (path_append built e) r ec;
          EvCreateDirectory (path_append built e) false]
         (Thrown (filesystem_error (path_append built e)))
| walk_fatal built e rest r ec :
    verdict pl r ec = Fatal ->
    walk pl built (e :: rest)
         [EvExists (path_append built e) r ec]
         (Thrown (runtime_error "Couldn't ensure that path exists.")).

(** The world with one of the Android statics overwritten. *)
Definition with_filesDirPath {FS} (v : string) (w : World FS) : World FS :=
  mkWorld (w_fs w)
          {| teknoParrotPath := teknoParrotPath (w_statics w);
             initialized := initialized (w_statics w);
             s_filesDirPath := v;
             s_cacheDirPath := s_cacheDirPath (w_statics w) |}
          (w_trace w).

Definition with_cacheDirPath {FS} (v : string) (w : World FS) : World FS :=
  mkWorld (w_fs w)
          {| teknoParrotPath := teknoParrotPath (w_statics w);
             initialized := initialized (w_statics w);
             s_filesDirPath := s_filesDirPath (w_statics w);
             s_cacheDirPath := v |}
          (w_trace w).


(** A change of the statics alone. *)
Definition on_statics {FS} (F : Statics -> Statics) (w : World FS) : World FS :=
  mkWorld (w_fs w) (F (w_statics w)) (w_trace w).

(** A computation that does not notice a change [g] of the world: run after
    the change, it gives the same result and the changed end state. *)
Definition unaffected_by {FS A} (g : World FS -> World FS) (m : M FS A) : Prop :=
  forall w, m (g w) = (fst (m w), g (snd (m w))).

(** ** Sample machines *)

(** A Linux or Android process started from [/opt/app/game]. *)
Definition unix_env : Env :=
  {| getenv := fun _ => None;
     executable_query := Some ["/"; "opt"; "app"; "game"];
     stale_buffer := [];
     current_path := Some ["/"; "home"; "user"];
     bundle_resource_path := None |}.

(** The same process run from an AppImage mounted at [/tmp/.mount_game]. *)
Definition appimage_env : Env :=
  {| getenv := fun name =>
       if decide (name = "APPIMAGE") then Some "/home/user/game.AppImage"
       else if decide (name = "APPDIR") then Some "/tmp/.mount_game"
       else None;
     executable_query := Some ["/"; "tmp"; ".mount_game"; "usr"; "bin"; "game"];
     stale_buffer := [];
     current_path := Some ["/"; "home"; "user"];
     bundle_resource_path := None |}.

(** A Windows process whose [GetModuleFileNameW] call fails; the buffer on
    the stack still holds an older string. *)
Definition win32_query_failure_env : Env :=
  {| getenv := fun _ => None;
     executable_query := None;
     stale_buffer := ["C:"; "\"; "Temp"; "old.tmp"];
     current_path := Some ["D:"; "\"; "Games"];
     bundle_resource_path := None |}.

(** A Linux process that the system tells neither where its executable is
    nor what its working directory is (the directory was removed). *)
Definition lost_env : Env :=
  {| getenv := fun _ => None;
     executable_query := None;
     stale_buffer := [];
     current_path := None;
     bundle_resource_path := None |}.

(** [/opt/app] exists and can be written to. *)
Definition writable_install : gmap path Node :=
  {[ ["/"] := Directory true; ["/"; "opt"] := Directory true;
     ["/"; "opt"; "app"] := Directory true ]}.

(** [/opt/app] exists and cannot be written to. *)
Definition read_only_install : gmap path Node :=
  {[ ["/"] := Directory true; ["/"; "opt"] := Directory true;
     ["/"; "opt"; "app"] := Directory false ]}.

(** A machine with the AppImage mounted and a Flatpak runtime installed. *)
Definition appimage_and_flatpak : gmap path Node :=
  {[ ["/"] := Directory true;
     ["/"; "tmp"] := Directory true;
     ["/"; "tmp"; ".mount_game"] := Directory false;
     ["/"; "tmp"; ".mount_game"; "usr"] := Directory false;
     ["/"; "tmp"; ".mount_game"; "usr"; "share"] := Directory false;
     ["/"; "app"] := Directory false;
     ["/"; "app"; "share"] := Directory false ]}.

(** [/opt] exists, [/opt/app] does not, and whatever is at
    [/opt/app/Cache] cannot be probed. *)
Definition unreadable_cache : gmap path Node :=
  {[ ["/"] := Directory true; ["/"; "opt"] := Directory true;
     ["/"; "opt"; "app"; "Cache"] := ProbeFault EACCES ]}.

(** [/opt/app] can be written to, but what is at
    [/opt/app/TeknoParrot/Documents] cannot be probed. *)
Definition unreadable_documents : gmap path Node :=
  {[ ["/"] := Directory true; ["/"; "opt"] := Directory true;
     ["/"; "opt"; "app"] := Directory true;
     ["/"; "opt"; "app"; "TeknoParrot"; "Documents"] := ProbeFault EACCES ]}.

(** [f] is one of the three resolvers of data directories on [pl]. *)
Definition data_resolver {FS} `{FileSystem FS} (pl : Platform)
           (f : Env -> M FS path) : Prop :=
  GetRoamingDataPath pl = Some f \/ GetPersonalDataPath pl = Some f
  \/ GetCachePath pl = Some f.

(** A Windows process started from [C:\Games\Play.exe]. *)
Definition win32_env : Env :=
  {| getenv := fun _ => None;
     executable_query := Some ["C:"; "\"; "Games"; "Play.exe"];
     stale_buffer := [];
     current_path := Some ["C:"; "\"; "Users"];
     bundle_resource_path := None |}.

(** [C:\Games] exists and can be written to. *)
Definition win32_install : gmap path Node :=
  {[ ["C:"] := Directory true; ["C:"; "\"] := Directory true;
     ["C:"; "\"; "Games"] := Directory true ]}.

(** * Properties *)

(** ** Running the loop of [EnsurePathExists] *)

Section EnsureFacts.
Context {FS : Type} `{FileSystem FS}.

Lemma verdict_cases pl r ec :
  verdict pl r ec =
    if negb (ec =? 0)%Z then
      if def_WIN32 pl then
        if (ec =? ERROR_ACCESS_DENIED)%Z then Present
        else if (ec =? ERROR_FILE_NOT_FOUND)%Z then Absent
        else Fatal
      else if (ec =? ENOENT)%Z then Absent else Fatal
    else if r then Present else Absent.
Proof.
  unfold verdict, unexpected_probe_error, not_found_code,
    ERROR_ACCESS_DENIED, ERROR_FILE_NOT_FOUND, ENOENT.
  destruct (Z.eqb_spec ec 0); simpl; [done|].
  destruct (def_WIN32 pl); simpl.
  - destruct (Z.eqb_spec ec 5), (Z.eqb_spec ec 2); simpl; try done; lia.
  - destruct (Z.eqb_spec ec 2); simpl; done.
Qed.

(** One turn of the loop, by the verdict on its probe. *)
Lemma body_run pl p (w : World FS) :
  let r := fs_exists (w_fs w) p in
  let w1 := mkWorld (w_fs w) (w_statics w)
                    (w_trace w ++ [EvExists p (fst r) (snd r)]) in
  EnsurePathExists_body pl p w =
    match verdict pl (fst r) (snd r) with
    | Present => (Returned tt, w1)
    | Absent => create_directory p w1
    | Fatal => (Thrown (runtime_error "Couldn't ensure that path exists."), w1)
    end.
Proof.
  intros r w1. rewrite verdict_cases.
  unfold EnsurePathExists_body, bind, exists_ec. fold r.
  destruct r as [b ec]; simpl. fold w1.
  destruct (negb (ec =? 0)%Z); simpl.
  - destruct (def_WIN32 pl); simpl.
    + destruct (ec =? ERROR_ACCESS_DENIED)%Z; simpl; [done|].
      destruct (ec =? ERROR_FILE_NOT_FOUND)%Z; simpl; done.
    + destruct (ec =? ENOENT)%Z; simpl; done.
  - destruct b; simpl; done.
Qed.

Lemma loop_cons pl built e rest (w : World FS) :
  EnsurePathExists_loop pl built (e :: rest) w =
    match EnsurePathExists_body pl (path_append built e) w with
    | (Returned _, w') => EnsurePathExists_loop pl (path_append built e) rest w'
    | (Thrown ex, w') => (Thrown ex, w')
    | (Undefined, w') => (Undefined, w')
    end.
Proof. reflexivity. Qed.

(** Every run of the loop has the shape [walk], and leaves the statics as
    they were. *)
Lemma loop_walk pl rest : forall built (w : World FS),
  exists delta,
    w_trace (snd (EnsurePathExists_loop pl built rest w)) = w_trace w ++ delta
    /\ walk pl built rest delta (fst (EnsurePathExists_loop pl built rest w))
    /\ w_statics (snd (EnsurePathExists_loop pl built rest w)) = w_statics w.
Proof.
  induction rest as [|e rest IH]; intros built w.
  - exists []. simpl. rewrite app_nil_r. split; [done|]. split; [constructor|done].
  - rewrite loop_cons, body_run.
    set (p := path_append built e).
    destruct (fs_exists (w_fs w) p) as [r ec] eqn:Hprobe; simpl.
    destruct (verdict pl r ec) eqn:Hv.
    + match goal with |- context [EnsurePathExists_loop pl p rest ?w1] =>
        destruct (IH p w1) as (delta & Ht & Hw & Hs) end.
      exists (EvExists p r ec :: delta). simpl in *.
      split; [rewrite Ht; by rewrite <- app_assoc|].
      split; [by apply walk_present | done].
    + unfold create_directory; simpl.
      destruct (fs_create_directory (w_fs w) p) as [s'|] eqn:Hc.
      * match goal with |- context [EnsurePathExists_loop pl p rest ?w1] =>
          destruct (IH p w1) as (delta & Ht & Hw & Hs) end.
        exists (EvExists p r ec :: EvCreateDirectory p true :: delta).
        simpl in *. split; [rewrite Ht; by rewrite <- !app_assoc|].
        split; [by apply walk_created | done].
      * exists [EvExists p r ec; EvCreateDirectory p false]. simpl.
        split; [by rewrite <- app_assoc|].
        split; [by apply walk_create_failed | done].
    + exists [EvExists p r ec]. simpl. split; [done|].
      split; [by apply walk_fatal | done].
Qed.

End EnsureFacts.

(** ** What the shape of a run implies *)

Section WalkFacts.
Variable pl : Platform.


Lemma probes_exists q r ec tr : probes (EvExists q r ec :: tr) = q :: probes tr.
Proof. reflexivity. Qed.
Lemma probes_create q ok tr : probes (EvCreateDirectory q ok :: tr) = probes tr.
Proof. reflexivity. Qed.

Lemma take_S_cons_app (built : path) e (rest : list string) k :
  path_append built e ++ take k rest = built ++ take (S k) (e :: rest).
Proof. unfold path_append. by rewrite <- app_assoc. Qed.



Lemma walk_head built e rest tr res :
  walk pl built (e :: rest) tr res ->
  exists r ec tr', tr = EvExists (path_append built e) r ec :: tr'.
Proof. inversion 1; subst; eauto. Qed.

(** What follows a probe, by its verdict. *)
Lemma walk_after_probe built rest tr res :
  walk pl built rest tr res ->
  forall i q r ec, tr !! i = Some (EvExists q r ec) ->
  exists k, k < length rest /\ q = built ++ take (S k) rest /\
    match verdict pl r ec with
    | Present =>
        (S k = length rest /\ res = Returned tt /\ length tr = S i)
        \/ (S k < length rest /\
            exists r' ec',
              tr !! S i = Some (EvExists (built ++ take (S (S k)) rest) r' ec'))
    | Absent => exists ok, tr !! S i = Some (EvCreateDirectory q ok)
    | Fatal =>
        res = Thrown (runtime_error "Couldn't ensure that path exists.")
        /\ length tr = S i
    end.
Proof.
  induction 1 as [built|built e rest r0 ec0 tr res Hv Hw IH
                  |built e rest r0 ec0 tr res Hv Hw IH
                  |built e rest r0 ec0 Hv|built e rest r0 ec0 Hv];
    intros i q r ec Hi.
  - done.
  - destruct i as [|i]; simpl in Hi.
    + injection Hi as <- <- <-. exists 0. split; [simpl; lia|].
      split; [done|]. rewrite Hv.
      destruct rest as [|e' rest'].
      * left. inversion Hw; subst. done.
      * right. split; [simpl; lia|].
        destruct (walk_head _ _ _ _ _ Hw) as (r' & ec' & tr' & ->).
        exists r', ec'. simpl. unfold path_append.
        by rewrite <- app_assoc.
    + destruct (IH _ _ _ _ Hi) as (k & Hk & Hq & Hm).
      exists (S k). split; [simpl; lia|].
      split; [by rewrite Hq, take_S_cons_app|].
      destruct (verdict pl r ec); simpl.
      * destruct Hm as [(? & ? & ?)|(? & r' & ec' & Hn)].
        -- left. repeat split; [lia | done | lia].
        -- right. split; [lia|]. exists r', ec'.
           by rewrite Hn, take_S_cons_app.
      * done.
      * destruct Hm as [? ?]. split; [done | lia].
  - destruct i as [|[|i]]; simpl in Hi.
    + injection Hi as <- <- <-. exists 0. split; [simpl; lia|].
      split; [done|]. rewrite Hv. by exists true.
    + done.
    + destruct (IH _ _ _ _ Hi) as (k & Hk & Hq & Hm).
      exists (S k). split; [simpl; lia|].
      split; [by rewrite Hq, take_S_cons_app|].
      destruct (verdict pl r ec); simpl.
      * destruct Hm as [(? & ? & ?)|(? & r' & ec' & Hn)].
        -- left. repeat split; [lia | done | lia].
        -- right. split; [lia|]. exists r', ec'.
           by rewrite Hn, take_S_cons_app.
      * done.
      * destruct Hm as [? ?]. split; [done | lia].
  - destruct i as [|[|i]]; simpl in Hi; [|done|done].
    injection Hi as <- <- <-. exists 0. split; [simpl; lia|].
    split; [done|]. rewrite Hv. by exists false.
  - destruct i as [|i]; simpl in Hi; [|done].
    injection Hi as <- <- <-. exists 0. split; [simpl; lia|].
    split; [done|]. by rewrite Hv.
Qed.

(** A creation is attempted only right after the probe of the same prefix
    found it absent. *)
Lemma walk_create_follows_probe built rest tr res :
  walk pl built rest tr res ->
  forall i q ok, tr !! i = Some (EvCreateDirectory q ok) ->
  exists j r ec, i = S j /\ tr !! j = Some (EvExists q r ec)
                 /\ verdict pl r ec = Absent.
Proof.
  induction 1 as [built|built e rest r0 ec0 tr res Hv Hw IH
                  |built e rest r0 ec0 tr res Hv Hw IH
                  |built e rest r0 ec0 Hv|built e rest r0 ec0 Hv];
    intros i q ok Hi.
  - done.
  - destruct i as [|i]; simpl in Hi; [done|].
    destruct (IH _ _ _ Hi) as (j & r & ec & -> & Hj & Ha).
    exists (S j), r, ec. done.
  - destruct i as [|[|i]]; simpl in Hi; [done| |].
    + injection Hi as <- <-. exists 0, r0, ec0. done.
    + destruct (IH _ _ _ Hi) as (j & r & ec & -> & Hj & Ha).
      exists (S (S j)), r, ec. done.
  - destruct i as [|[|i]]; simpl in Hi; [done| |done].
    injection Hi as <- <-. exists 0, r0, ec0. done.
  - destruct i as [|i]; simpl in Hi; done.
Qed.

Lemma walk_probe_longer built rest tr res i q r ec :
  walk pl built rest tr res ->
  tr !! i = Some (EvExists q r ec) -> length built < length q.
Proof.
  intros Hw Hi. destruct (walk_after_probe _ _ _ _ Hw _ _ _ _ Hi) as (k & Hk & -> & _).
  rewrite length_app, length_take. lia.
Qed.

(** A prefix is probed once. *)
Lemma walk_probe_unique built rest tr res :
  walk pl built rest tr res ->
  forall i j q r ec r' ec',
    tr !! i = Some (EvExists q r ec) -> tr !! j = Some (EvExists q r' ec') ->
    i = j.
Proof.
  assert (Hlen : forall (b : path) e, length (path_append b e) = S (length b)).
  { intros. unfold path_append. rewrite length_app. simpl. lia. }
  induction 1 as [built|built e rest r0 ec0 tr res Hv Hw IH
                  |built e rest r0 ec0 tr res Hv Hw IH
                  |built e rest r0 ec0 Hv|built e rest r0 ec0 Hv];
    intros i j q r ec r' ec' Hi Hj.
  - done.
  - destruct i as [|i], j as [|j]; simpl in Hi, Hj; [done| | |].
    + injection Hi as <- <- <-.
      apply (walk_probe_longer _ _ _ _ _ _ _ _ Hw) in Hj. lia.
    + injection Hj as <- <- <-.
      apply (walk_probe_longer _ _ _ _ _ _ _ _ Hw) in Hi. lia.
    + f_equal. eauto.
  - destruct i as [|[|i]], j as [|[|j]]; simpl in Hi, Hj; try done.
    + injection Hi as <- <- <-.
      apply (walk_probe_longer _ _ _ _ _ _ _ _ Hw) in Hj. lia.
    + injection Hj as <- <- <-.
      apply (walk_probe_longer _ _ _ _ _ _ _ _ Hw) in Hi. lia.
    + do 2 f_equal. eauto.
  - destruct i as [|[|i]], j as [|[|j]]; simpl in Hi, Hj; done.
  - destruct i as [|i], j as [|j]; simpl in Hi, Hj; done.
Qed.

(** How a run ends. *)
Lemma walk_result built rest tr res :
  walk pl built rest tr res ->
  (res = Thrown (runtime_error "Couldn't ensure that path exists.")
   <-> exists q r ec, EvExists q r ec ∈ tr /\ verdict pl r ec = Fatal)
  /\ (forall q, res = Thrown (filesystem_error q)
                <-> EvCreateDirectory q false ∈ tr)
  /\ (res = Returned tt
      \/ res = Thrown (runtime_error "Couldn't ensure that path exists.")
      \/ exists q, res = Thrown (filesystem_error q)).
Proof.
  induction 1 as [built|built e rest r0 ec0 tr res Hv Hw IH
                  |built e rest r0 ec0 tr res Hv Hw IH
                  |built e rest r0 ec0 Hv|built e rest r0 ec0 Hv].
  - split; [|split].
    + split; [done|]. intros (q & r & ec & Hin & _). by apply elem_of_nil in Hin.
    + intros q. split; [done|]. intros Hin. by apply elem_of_nil in Hin.
    + by left.
  - destruct IH as (IH1 & IH2 & IH3). split; [|split]; [| |done].
    + rewrite IH1. split.
      * intros (q & r & ec & Hin & Hf). exists q, r, ec.
        split; [by apply elem_of_cons; right | done].
      * intros (q & r & ec & Hin & Hf).
        apply elem_of_cons in Hin as [Heq|Hin]; [|by eauto].
        injection Heq as -> -> ->. congruence.
    + intros q. rewrite IH2. split.
      * intros Hin. by apply elem_of_cons; right.
      * intros Hin. by apply elem_of_cons in Hin as [Heq|Hin].
  - destruct IH as (IH1 & IH2 & IH3). split; [|split]; [| |done].
    + rewrite IH1. split.
      * intros (q & r & ec & Hin & Hf). exists q, r, ec.
        split; [by do 2 (apply elem_of_cons; right) | done].
      * intros (q & r & ec & Hin & Hf).
        apply elem_of_cons in Hin as [Heq|Hin].
        { injection Heq as -> -> ->. congruence. }
        apply elem_of_cons in Hin as [Heq|Hin]; [done|by eauto].
    + intros q. rewrite IH2. split.
      * intros Hin. by do 2 (apply elem_of_cons; right).
      * intros Hin. apply elem_of_cons in Hin as [Heq|Hin]; [done|].
        by apply elem_of_cons in Hin as [Heq|Hin].
  - split; [|split].
    + split; [done|]. intros (q & r & ec & Hin & Hf).
      apply elem_of_cons in Hin as [Heq|Hin].
      { injection Heq as -> -> ->. congruence. }
      apply elem_of_cons in Hin as [Heq|Hin]; [done|].
      by apply elem_of_nil in Hin.
    + intros q. split.
      * intros [= <-]. apply elem_of_cons; right. apply elem_of_cons; by left.
      * intros Hin. apply elem_of_cons in Hin as [Heq|Hin]; [done|].
        apply elem_of_cons in Hin as [Heq|Hin]; [by injection Heq as ->|].
        by apply elem_of_nil in Hin.
    + right; right. eauto.
  - split; [|split].
    + split; [|done]. intros _. exists (path_append built e), r0, ec0.
      split; [apply elem_of_cons; by left | done].
    + intros q. split; [done|]. intros Hin.
      apply elem_of_cons in Hin as [Heq|Hin]; [done|].
      by apply elem_of_nil in Hin.
    + right; left. done.
Qed.

End WalkFacts.

(** ** [EnsurePathExists]: probes, creations, errors *)

Section EnsureClaims.
Context {FS : Type} `{FileSystem FS}.

Lemma EnsurePathExists_walk pl (p : path) (w : World FS) :
  walk pl [] p (new_events w (snd (EnsurePathExists pl p w)))
       (fst (EnsurePathExists pl p w)).
Proof.
  destruct (loop_walk pl p [] w) as (delta & Ht & Hw & _).
  unfold new_events, EnsurePathExists. rewrite Ht, drop_app_length. done.
Qed.

Lemma verdict_fatal pl r ec :
  verdict pl r ec = Fatal <-> unexpected_probe_error pl ec = true.
Proof.
  unfold verdict.
  destruct (Z.eqb_spec ec 0) as [->|Hne].
  - unfold unexpected_probe_error. simpl. by destruct r.
  - destruct (unexpected_probe_error pl ec); [done|].
    by destruct (ec =? not_found_code pl)%Z.
Qed.


(** C1, as the code has it. A probe that fails with the platform's
    permission-denied code is taken as "present" on Windows only: no
    creation is attempted for that prefix, the call does not throw there,
    and the next deeper prefix is probed next (or, at the last element, the
    call returns).  On the other platforms the same failure ends the call
    with the runtime error. *)
Theorem permission_denied_probe_by_platform
        pl (p : path) (w : World FS) i q r ec :
  let run := EnsurePathExists pl p w in
  let tr := new_events w (snd run) in
  tr !! i = Some (EvExists q r ec) ->
  ec = (if def_WIN32 pl then ERROR_ACCESS_DENIED else EACCES) ->
  if def_WIN32 pl then
    (forall ok, EvCreateDirectory q ok ∉ tr)
    /\ (q = p -> fst run = Returned tt /\ length tr = S i)
    /\ (q <> p ->
        exists r' ec',
          tr !! S i = Some (EvExists (take (S (length q)) p) r' ec'))
  else
    fst run = Thrown (runtime_error "Couldn't ensure that path exists.")
    /\ length tr = S i.
Proof.
  intros run tr Hi Hec.
  pose proof (EnsurePathExists_walk pl p w) as Hw. fold run tr in Hw.
  destruct (walk_after_probe _ _ _ _ _ Hw _ _ _ _ Hi) as (k & Hk & Hq & Hm).
  simpl in Hq.
  assert (Hlq : length q = S k) by (rewrite Hq, length_take; lia).
  rewrite verdict_cases in Hm.
  destruct (def_WIN32 pl) eqn:Hwin; subst ec; simpl in Hm.
  - destruct Hm as [(Hend & Hres & Hlen)|(Hmore & r' & ec' & Hnext)].
    + assert (q = p) as -> by (rewrite Hq, Hend; apply firstn_all).
      split; [|done].
      intros ok Hin. apply list_elem_of_lookup in Hin as [j Hj].
      destruct (walk_create_follows_probe _ _ _ _ _ Hw _ _ _ Hj)
        as (j' & r0 & ec0 & -> & Hj' & Ha).
      pose proof (walk_probe_unique _ _ _ _ _ Hw _ _ _ _ _ _ _ Hi Hj') as ->.
      rewrite Hi in Hj'. injection Hj' as <- <-.
      rewrite verdict_cases, Hwin in Ha. done.
    + split; [|split].
      * intros ok Hin. apply list_elem_of_lookup in Hin as [j Hj].
        destruct (walk_create_follows_probe _ _ _ _ _ Hw _ _ _ Hj)
          as (j' & r0 & ec0 & -> & Hj' & Ha).
        pose proof (walk_probe_unique _ _ _ _ _ Hw _ _ _ _ _ _ _ Hi Hj') as ->.
        rewrite Hi in Hj'. injection Hj' as <- <-.
        rewrite verdict_cases, Hwin in Ha. done.
      * intros ->. lia.
      * intros _. exists r', ec'. by rewrite Hlq.
  - done.
Qed.

(** C3, as the code has it. The call ends with the runtime error exactly
    when one of its probes reports an unexpected error code; it ends with
    the filesystem library's own error exactly when one of its
    [create_directory] calls fails, so creation errors are raised, not
    dropped; nothing else ends it abnormally. *)
Theorem EnsurePathExists_raises pl (p : path) (w : World FS) :
  let run := EnsurePathExists pl p w in
  let tr := new_events w (snd run) in
  (fst run = Thrown (runtime_error "Couldn't ensure that path exists.")
   <-> exists q r ec,
         EvExists q r ec ∈ tr /\ unexpected_probe_error pl ec = true)
  /\ (forall q, fst run = Thrown (filesystem_error q)
                <-> EvCreateDirectory q false ∈ tr)
  /\ (fst run = Returned tt
      \/ fst run = Thrown (runtime_error "Couldn't ensure that path exists.")
      \/ exists q, fst run = Thrown (filesystem_error q)).
Proof.
  intros run tr.
  pose proof (EnsurePathExists_walk pl p w) as Hw. fold run tr in Hw.
  destruct (walk_result _ _ _ _ _ Hw) as (H1 & H2 & H3).
  split; [|done]. rewrite H1.
  split; intros (q & r & ec & Hin & Hf); exists q, r, ec;
    (split; [done|]); by apply (verdict_fatal pl r ec).
Qed.

End EnsureClaims.

(** Witness of C1: on Windows, the second of four prefixes answers
    access-denied. *)
Lemma permission_denied_probe_by_platform_witness :
  let w := SimFS.world {[ ["C:"] := Directory true;
                          ["C:"; "\"] := Directory true;
                          ["C:"; "\"; "Vault"] := ProbeFault ERROR_ACCESS_DENIED ]} in
  let p := ["C:"; "\"; "Vault"; "Saves"] in
  let q := ["C:"; "\"; "Vault"] in
  let run := EnsurePathExists Win32Desktop p w in
  let tr := new_events w (snd run) in
  (forall ok, EvCreateDirectory q ok ∉ tr)
  /\ (q = p -> fst run = Returned tt /\ length tr = 3)
  /\ (q <> p ->
      exists r' ec', tr !! 3 = Some (EvExists (take 4 p) r' ec')).
Proof.
  exact (permission_denied_probe_by_platform
           Win32Desktop ["C:"; "\"; "Vault"; "Saves"]
           (SimFS.world {[ ["C:"] := Directory true;
                           ["C:"; "\"] := Directory true;
                           ["C:"; "\"; "Vault"] := ProbeFault ERROR_ACCESS_DENIED ]})
           2 ["C:"; "\"; "Vault"] false ERROR_ACCESS_DENIED
           eq_refl eq_refl).
Defined.

(** Counterexample to C1 as stated: on Linux the probe of the intermediate
    prefix [/srv] fails with EACCES; the call throws and never probes
    [/srv/data]. *)
Lemma permission_denied_probe_throws_on_linux :
  let s : gmap path Node :=
    {[ ["/"] := Directory true; ["/"; "srv"] := ProbeFault EACCES ]} in
  EnsurePathExists Linux ["/"; "srv"; "data"] (SimFS.world s)
  = (Thrown (runtime_error "Couldn't ensure that path exists."),
     mkWorld s initial_statics
             [EvExists ["/"] true 0; EvExists ["/"; "srv"] false EACCES]).
Proof. vm_compute. reflexivity. Qed.

(** Counterexample to C3 as stated: [/ro] is a directory that cannot be
    written to; every probe succeeds with a clear error code, the creation of
    [/ro/x] fails, and the failure leaves the call as an exception. *)
Lemma creation_failure_is_raised :
  let s : gmap path Node :=
    {[ ["/"] := Directory true; ["/"; "ro"] := Directory false ]} in
  EnsurePathExists Linux ["/"; "ro"; "x"] (SimFS.world s)
  = (Thrown (filesystem_error ["/"; "ro"; "x"]),
     mkWorld s initial_statics
             [EvExists ["/"] true 0; EvExists ["/"; "ro"] true 0;
              EvExists ["/"; "ro"; "x"] false 0;
              EvCreateDirectory ["/"; "ro"; "x"] false]).
Proof. vm_compute. reflexivity. Qed.

(** ** [EnsurePathExists] and the state of the filesystem *)

Section EnsureState.
Context {FS : Type} `{FileSystemLaws FS}.

Lemma verdict_present pl r ec :
  verdict pl r ec = Present ->
  (r = true /\ ec = 0%Z) \/ (def_WIN32 pl = true /\ ec = ERROR_ACCESS_DENIED).
Proof.
  rewrite verdict_cases.
  destruct (Z.eqb_spec ec 0) as [->|Hne]; simpl.
  - destruct r; [by left | done].
  - destruct (def_WIN32 pl); simpl.
    + destruct (Z.eqb_spec ec ERROR_ACCESS_DENIED); [by right|].
      by destruct (ec =? ERROR_FILE_NOT_FOUND)%Z.
    + by destruct (ec =? ENOENT)%Z.
Qed.

Lemma verdict_true_clear pl : verdict pl true 0 = Present.
Proof. reflexivity. Qed.

(** The loop leaves the probe of everything at or above [built] alone. *)
Lemma loop_keeps_probe pl rest : forall built (w : World FS) (q : path),
  q `prefix_of` built ->
  fs_exists (w_fs (snd (EnsurePathExists_loop pl built rest w))) q
  = fs_exists (w_fs w) q.
Proof.
  induction rest as [|e rest IH]; intros built w q Hq; [done|].
  assert (Hq' : q `prefix_of` path_append built e).
  { by apply prefix_app_r. }
  assert (Hne : q <> path_append built e).
  { intros ->. apply prefix_length in Hq. unfold path_append in Hq.
    rewrite length_app in Hq. simpl in Hq. lia. }
  rewrite loop_cons, body_run.
  destruct (fs_exists (w_fs w) (path_append built e)) as [r ec]; simpl.
  destruct (verdict pl r ec).
  - by rewrite IH.
  - unfold create_directory; simpl.
    destruct (fs_create_directory (w_fs w) (path_append built e)) as [s'|] eqn:Hc;
      [|done].
    rewrite IH by done. simpl. by eapply create_keeps_prefixes.
  - done.
Qed.

(** Running the loop again, from any world with the filesystem the first
    run left, ends the same way and changes nothing. *)
Lemma loop_again pl rest : forall built (w w2 : World FS),
  w_fs w2 = w_fs (snd (EnsurePathExists_loop pl built rest w)) ->
  fst (EnsurePathExists_loop pl built rest w2)
  = fst (EnsurePathExists_loop pl built rest w)
  /\ w_fs (snd (EnsurePathExists_loop pl built rest w2)) = w_fs w2.
Proof.
  induction rest as [|e rest IH]; intros built w w2 Hfs; [done|].
  set (p := path_append built e).
  rewrite !loop_cons, !body_run in *. fold p in Hfs |- *.
  destruct (fs_exists (w_fs w) p) as [r ec] eqn:Hprobe; simpl in *.
  destruct (verdict pl r ec) eqn:Hv.
  - (* present: the second run sees the same answer *)
    assert (Hsame : fs_exists (w_fs w2) p = (r, ec)).
    { rewrite Hfs, loop_keeps_probe by done. done. }
    rewrite Hsame; simpl. rewrite Hv.
    match goal with |- context [EnsurePathExists_loop pl p rest ?w2'] =>
      apply (IH p _ w2') end. done.
  - unfold create_directory in *; simpl in *.
    destruct (fs_create_directory (w_fs w) p) as [s'|] eqn:Hc; simpl in *.
    + (* created: the second run finds it *)
      assert (Hsame : fs_exists (w_fs w2) p = (true, 0%Z)).
      { rewrite Hfs, loop_keeps_probe by done. simpl.
        by eapply create_then_exists. }
      rewrite Hsame; simpl. rewrite ?verdict_true_clear.
      match goal with |- context [EnsurePathExists_loop pl p rest ?w2'] =>
        apply (IH p _ w2') end. done.
    + (* creation failed: it fails again *)
      rewrite Hfs, Hprobe; simpl. rewrite Hv. simpl. rewrite Hc. done.
  - simpl in Hfs. rewrite Hfs, Hprobe; simpl. rewrite Hv. done.
Qed.

(** C8. Calling [EnsurePathExists] a second time on the same path, with
    nothing else touching the filesystem in between, leaves the filesystem
    as the first call left it, and ends the way the first call ended. *)
Theorem EnsurePathExists_idempotent pl (p : path) (w : World FS) :
  let once := EnsurePathExists pl p w in
  let twice := EnsurePathExists pl p (snd once) in
  w_fs (snd twice) = w_fs (snd once) /\ fst twice = fst once.
Proof.
  intros once twice.
  destruct (loop_again pl p [] w (snd once) eq_refl) as [Hr Hs].
  split; done.
Qed.

End EnsureState.

(** The simulated filesystem obeys the laws. *)
Lemma sim_create_then_exists (s s' : gmap path Node) (p : path) :
  SimFS.sim_create_directory s p = Some s' -> SimFS.sim_exists s' p = (true, 0%Z).
Proof.
  unfold SimFS.sim_create_directory, SimFS.sim_exists.
  destruct (s !! p) as [[wr| |ec]|] eqn:Hp; try done.
  - intros [= <-]. by rewrite Hp.
  - destruct (s !! parent_path p) as [[[|]| |ec]|]; try done.
    intros [= <-]. by rewrite lookup_insert_eq.
Qed.

Lemma sim_create_keeps_others (s s' : gmap path Node) (p q : path) :
  SimFS.sim_create_directory s q = Some s' -> p <> q ->
  SimFS.sim_exists s' p = SimFS.sim_exists s p.
Proof.
  unfold SimFS.sim_create_directory, SimFS.sim_exists.
  intros Hc Hne.
  destruct (s !! q) as [[wr| |ec]|] eqn:Hq; try done.
  - by injection Hc as <-.
  - destruct (s !! parent_path q) as [[[|]| |ec]|]; try done.
    injection Hc as <-. by rewrite lookup_insert_ne.
Qed.

#[global] Instance sim_laws : FileSystemLaws (gmap path Node).
Proof.
  split.
  - exact sim_create_then_exists.
  - intros s s' p q Hc _ Hne. by apply (sim_create_keeps_others s s' p q).
Qed.

(** Witness of C8: [/opt] exists, [/opt/app] and [/opt/app/Cache] are made by
    the first call. *)
Lemma EnsurePathExists_idempotent_witness :
  let w := SimFS.world {[ ["/"] := Directory true;
                          ["/"; "opt"] := Directory true ]} in
  let once := EnsurePathExists Linux ["/"; "opt"; "app"; "Cache"] w in
  let twice := EnsurePathExists Linux ["/"; "opt"; "app"; "Cache"] (snd once) in
  w_fs (snd twice) = w_fs (snd once) /\ fst twice = fst once.
Proof.
  exact (EnsurePathExists_idempotent
           Linux ["/"; "opt"; "app"; "Cache"]
           (SimFS.world {[ ["/"] := Directory true;
                           ["/"; "opt"] := Directory true ]})).
Defined.

Example first_call_creates_the_missing_directories :
  w_fs (snd (EnsurePathExists Linux ["/"; "opt"; "app"; "Cache"]
               (SimFS.world {[ ["/"] := Directory true;
                               ["/"; "opt"] := Directory true ]})))
  = {[ ["/"] := Directory true; ["/"; "opt"] := Directory true;
       ["/"; "opt"; "app"] := Directory true;
       ["/"; "opt"; "app"; "Cache"] := Directory true ]}.
Proof. vm_compute. reflexivity. Qed.

(** ** The resolvers and the existence of what they return *)

Section ResolverFacts.
Context {FS : Type} `{FileSystem FS}.

(** [fs::current_path()] either gives the working directory or throws. *)
Lemma fs_current_path_runs env :
  exists r,
    (forall w : World FS,
        fs_current_path env w
        = (r, mkWorld (w_fs w) (w_statics w) (w_trace w ++ [EvCurrentPath])))
    /\ (forall e, r = Thrown e ->
                  e = filesystem_error [] /\ current_path env = None)
    /\ (forall d, r = Returned d -> current_path env = Some d)
    /\ r <> Undefined.
Proof.
  unfold fs_current_path, bind, log, ret, throw.
  destruct (current_path env) as [cwd|]; cbn.
  - exists (Returned cwd). split; [done|]. split; [done|]. split; [|done].
    by intros d [= ->].
  - exists (Thrown (filesystem_error [])). split; [done|].
    split; [by intros e [= <-]|done].
Qed.

(** [GetExecutableDirectory] touches neither the filesystem nor the statics,
    and the world it is run in has no part in its result; the one exception
    it can end with is that of [fs::current_path()]. *)
Lemma GetExecutableDirectory_runs pl env :
  exists r tr,
    (forall w : World FS,
        GetExecutableDirectory pl env w
        = (r, mkWorld (w_fs w) (w_statics w) (w_trace w ++ tr)))
    /\ (forall e, r = Thrown e ->
                  e = filesystem_error [] /\ current_path env = None)
    /\ r <> Undefined.
Proof.
  destruct (fs_current_path_runs env) as (rc & Hc & Hthrown & _ & Hdef).
  assert (Hfallback : exists r tr,
    (forall w : World FS,
        (log EvExecutableQuery ;;; fs_current_path env) w
        = (r, mkWorld (w_fs w) (w_statics w) (w_trace w ++ tr)))
    /\ (forall e, r = Thrown e ->
                  e = filesystem_error [] /\ current_path env = None)
    /\ r <> Undefined).
  { exists rc, [EvExecutableQuery; EvCurrentPath]. split; [|done].
    intros w. unfold bind, log. rewrite Hc. cbn. by rewrite <- app_assoc. }
  unfold GetExecutableDirectory.
  destruct (def_WIN32 pl).
  { eexists _, [_]. split; [reflexivity|]. done. }
  destruct (def_APPLE pl).
  { destruct (executable_query env); [|done].
    eexists _, [_]. split; [reflexivity|]. done. }
  destruct (def_linux pl || def_FreeBSD pl).
  { destruct (executable_query env); [|done].
    eexists _, [_]. split; [reflexivity|]. done. }
  by exists rc, [EvCurrentPath].
Qed.

End ResolverFacts.

Section ResolverState.
Context {FS : Type} `{FileSystemLaws FS}.

Lemma loop_returned_present pl rest : forall built (w : World FS),
  rest <> [] ->
  fst (EnsurePathExists_loop pl built rest w) = Returned tt ->
  let s' := w_fs (snd (EnsurePathExists_loop pl built rest w)) in
  fs_exists s' (built ++ rest) = (true, 0%Z)
  \/ (def_WIN32 pl = true
      /\ snd (fs_exists s' (built ++ rest)) = ERROR_ACCESS_DENIED).
Proof.
  induction rest as [|e rest IH]; intros built w Hne; [done|].
  rewrite loop_cons, body_run.
  set (p := path_append built e).
  assert (Hp : built ++ e :: rest = p ++ rest).
  { unfold p, path_append. by rewrite <- app_assoc. }
  rewrite Hp.
  destruct (fs_exists (w_fs w) p) as [r ec] eqn:Hprobe; simpl.
  destruct (verdict pl r ec) eqn:Hv.
  - destruct rest as [|e' rest'].
    + simpl. intros _. rewrite app_nil_r, Hprobe.
      destruct (verdict_present _ _ _ Hv) as [[-> ->]|[? ->]]; [by left|by right].
    + apply IH. done.
  - unfold create_directory; simpl.
    destruct (fs_create_directory (w_fs w) p) as [s1|] eqn:Hc; [|done].
    destruct rest as [|e' rest'].
    + simpl. intros _. rewrite app_nil_r. left. by eapply create_then_exists.
    + apply IH. done.
  - done.
Qed.

Lemma ensured_under_base_present pl env sub (w w' : World FS) (p : path) :
  sub <> [] ->
  ensured_under_base pl env sub w = (Returned p, w') ->
  fs_exists (w_fs w') p = (true, 0%Z)
  \/ (def_WIN32 pl = true /\ snd (fs_exists (w_fs w') p) = ERROR_ACCESS_DENIED).
Proof.
  intros Hsub. unfold ensured_under_base, bind.
  destruct (GetTeknoParrotBaseDirectory pl env w) as [[base|e|] w1];
    [|done|done].
  unfold EnsurePathExists.
  destruct (EnsurePathExists_loop pl [] (path_concat base sub) w1)
    as [[[]|ex|] w2] eqn:Hrun; [|done|done].
  unfold ret. intros [= <- <-].
  pose proof (loop_returned_present pl (path_concat base sub) [] w1) as Hl.
  rewrite Hrun in Hl. simpl in Hl. apply Hl; [|done].
  unfold path_concat. destruct base; [done|]. done.
Qed.

(** C2, as the code has it. [GetRoamingDataPath], [GetPersonalDataPath]
    and [GetCachePath] either throw or return a path that the filesystem,
    asked at the moment of return, reports present with a clear error code
    -- or, on Windows, answers with access-denied, which the module takes
    for present.  [GetAppResourcesPath] is not among them: it never calls
    [EnsurePathExists]. *)
Theorem data_resolvers_return_ensured_path
        pl (f : Env -> M FS path) env (w w' : World FS) (p : path) :
  GetRoamingDataPath pl = Some f \/ GetPersonalDataPath pl = Some f
  \/ GetCachePath pl = Some f ->
  f env w = (Returned p, w') ->
  fs_exists (w_fs w') p = (true, 0%Z)
  \/ (def_WIN32 pl = true /\ snd (fs_exists (w_fs w') p) = ERROR_ACCESS_DENIED).
Proof.
  intros Hf Hrun.
  assert (exists sub, sub <> [] /\ f = fun env => ensured_under_base pl env sub)
    as (sub & Hsub & ->).
  { destruct Hf as [Hf|[Hf|Hf]]; destruct pl; simpl in Hf;
      try discriminate; injection Hf as <-; eexists; split; try reflexivity; done. }
  by eapply ensured_under_base_present.
Qed.

End ResolverState.

(** Witness of C2 as the code has it: [GetPersonalDataPath] on Linux, from
    an installation directory that can be written to. *)
Lemma data_resolvers_return_ensured_path_witness :
  let run := ensured_under_base Linux unix_env ["Documents"]
               (SimFS.world writable_install) in
  fs_exists (w_fs (snd run)) ["/"; "opt"; "app"; "TeknoParrot"; "Documents"]
  = (true, 0%Z)
  \/ (def_WIN32 Linux = true
      /\ snd (fs_exists (w_fs (snd run))
                ["/"; "opt"; "app"; "TeknoParrot"; "Documents"])
         = ERROR_ACCESS_DENIED).
Proof.
  exact (data_resolvers_return_ensured_path
           Linux (fun env => ensured_under_base Linux env ["Documents"])
           unix_env (SimFS.world writable_install)
           (snd (ensured_under_base Linux unix_env ["Documents"]
                   (SimFS.world writable_install)))
           ["/"; "opt"; "app"; "TeknoParrot"; "Documents"]
           (or_intror (or_introl eq_refl)) eq_refl).
Defined.

(** Counterexample to C2 as stated: on Android, with the installation
    directory read-only, [GetAppResourcesPath] returns normally the path of a
    base directory that was never made. *)
Lemma GetAppResourcesPath_returns_missing_directory :
  exists (f : Env -> M (gmap path Node) path) w',
    GetAppResourcesPath Android = Some f
    /\ f unix_env (SimFS.world read_only_install)
       = (Returned ["/"; "opt"; "app"; "TeknoParrot"], w')
    /\ fs_exists (w_fs w') ["/"; "opt"; "app"; "TeknoParrot"] = (false, 0%Z).
Proof.
  eexists _, _. split; [reflexivity|]. split; [vm_compute; reflexivity|].
  vm_compute. reflexivity.
Qed.

(** ** The executable directory and the base directory *)

Section BaseDirectory.
Context {FS : Type} `{FileSystem FS}.

(** Where the query is checked, its failure leads to the working
    directory, or to the exception of asking for it. *)
Lemma GetExecutableDirectory_falls_back pl env (w : World FS) :
  def_WIN32 pl = false -> executable_query env = None ->
  fst (GetExecutableDirectory pl env w)
  = match current_path env with
    | Some cwd => Returned cwd
    | None => Thrown (filesystem_error [])
    end.
Proof.
  intros Hw Hq. unfold GetExecutableDirectory, fs_current_path, bind, log, ret.
  rewrite Hw, Hq.
  destruct (def_APPLE pl); [by destruct (current_path env)|].
  destruct (def_linux pl || def_FreeBSD pl); by destruct (current_path env).
Qed.

(** A call that finds the flag set returns the stored path and does
    nothing else. *)
Lemma GetTeknoParrotBaseDirectory_cached pl env (w : World FS) :
  initialized (w_statics w) = true ->
  GetTeknoParrotBaseDirectory pl env w
  = (Returned (teknoParrotPath (w_statics w)), w).
Proof.
  intros Hi. unfold GetTeknoParrotBaseDirectory, bind, get_statics, ret.
  by rewrite Hi.
Qed.

(** A call that finds the flag clear. *)
Lemma GetTeknoParrotBaseDirectory_first pl env (w w1 : World FS) d :
  initialized (w_statics w) = false ->
  GetExecutableDirectory pl env w = (Returned d, w1) ->
  let tp := path_append d "TeknoParrot" in
  let st' := {| teknoParrotPath := tp; initialized := true;
                s_filesDirPath := s_filesDirPath (w_statics w);
                s_cacheDirPath := s_cacheDirPath (w_statics w) |} in
  let r := fs_exists (w_fs w1) tp in
  let tr1 := w_trace w1 ++ [EvExists tp (fst r) (snd r)] in
  GetTeknoParrotBaseDirectory pl env w
  = (Returned tp,
     if negb (fst r)
     then mkWorld (fs_create_directories (w_fs w1) tp) st'
                  (tr1 ++ [EvCreateDirectories tp])
     else mkWorld (w_fs w1) st' tr1).
Proof.
  intros Hi Hexe tp st' r tr1.
  unfold GetTeknoParrotBaseDirectory, bind, get_statics, put_statics, ret.
  rewrite Hi. cbn [negb]. rewrite Hexe. cbn.
  fold tp. fold r. destruct r as [[|] ec]; reflexivity.
Qed.

(** A call that finds the flag clear and gets no executable directory. *)
Lemma GetTeknoParrotBaseDirectory_first_thrown pl env (w w1 : World FS) e :
  initialized (w_statics w) = false ->
  GetExecutableDirectory pl env w = (Thrown e, w1) ->
  GetTeknoParrotBaseDirectory pl env w = (Thrown e, w1).
Proof.
  intros Hi Hexe.
  unfold GetTeknoParrotBaseDirectory, bind, get_statics, put_statics, ret.
  rewrite Hi. cbn [negb]. by rewrite Hexe.
Qed.

(** C6, as the code has it. The base directory is settled by the first call
    that gets an executable directory: that call returns the executable
    directory joined with ["TeknoParrot"] and marks it computed, and any
    later call, in a world where the two statics are as that call left them,
    returns the same value and does nothing else: no query, no probe, no
    look at the environment it is given.  A call in which
    [GetExecutableDirectory] throws ends with that exception and leaves the
    statics and the filesystem as they were, so that the next call starts
    over. *)
Theorem base_directory_computed_once pl env (w : World FS) :
  initialized (w_statics w) = false ->
  let first := GetTeknoParrotBaseDirectory pl env w in
  (forall exeDir,
      fst (GetExecutableDirectory pl env w) = Returned exeDir ->
      fst first = Returned (path_append exeDir "TeknoParrot")
      /\ initialized (w_statics (snd first)) = true
      /\ teknoParrotPath (w_statics (snd first))
         = path_append exeDir "TeknoParrot"
      /\ forall env' (w2 : World FS),
           initialized (w_statics w2) = true ->
           teknoParrotPath (w_statics w2)
           = teknoParrotPath (w_statics (snd first)) ->
           GetTeknoParrotBaseDirectory pl env' w2
           = (Returned (path_append exeDir "TeknoParrot"), w2))
  /\ (forall e,
        fst (GetExecutableDirectory pl env w) = Thrown e ->
        fst first = Thrown e
        /\ w_statics (snd first) = w_statics w
        /\ w_fs (snd first) = w_fs w)
  /\ ((exists exeDir, fst (GetExecutableDirectory pl env w) = Returned exeDir)
      \/ (fst (GetExecutableDirectory pl env w) = Thrown (filesystem_error [])
          /\ current_path env = None)).
Proof.
  intros Hinit first.
  destruct (GetExecutableDirectory_runs (FS:=FS) pl env)
    as (r & tr & Hexe & Hthrown & Hdef).
  specialize (Hexe w). rewrite Hexe. cbn [fst].
  split; [|split].
  - intros exeDir ->. unfold first.
    rewrite (GetTeknoParrotBaseDirectory_first pl env w _ exeDir Hinit Hexe).
    cbn [fst snd].
    assert (Hst : forall (a b : World FS) (c : bool),
               w_statics (if c then a else b)
               = if c then w_statics a else w_statics b) by (by intros ? ? []).
    rewrite Hst. cbn [w_statics].
    split; [done|]. split; [by destruct (negb _)|]. split; [by destruct (negb _)|].
    intros env' w2 Hi Hp.
    rewrite (GetTeknoParrotBaseDirectory_cached pl env' w2 Hi), Hp.
    by destruct (negb _).
  - intros e ->. unfold first.
    by rewrite (GetTeknoParrotBaseDirectory_first_thrown pl env w _ e Hinit Hexe).
  - destruct r as [d|e|]; [left; by exists d | right | done].
    destruct (Hthrown e eq_refl) as [-> ?]. done.
Qed.

End BaseDirectory.

(** Witness of C6: a fresh Linux process. *)
Lemma base_directory_computed_once_witness :
  let first := GetTeknoParrotBaseDirectory Linux unix_env
                 (SimFS.world writable_install) in
  fst first = Returned (path_append ["/"; "opt"; "app"] "TeknoParrot")
  /\ initialized (w_statics (snd first)) = true
  /\ teknoParrotPath (w_statics (snd first))
     = path_append ["/"; "opt"; "app"] "TeknoParrot"
  /\ forall env' (w2 : World (gmap path Node)),
       initialized (w_statics w2) = true ->
       teknoParrotPath (w_statics w2)
       = teknoParrotPath (w_statics (snd first)) ->
       GetTeknoParrotBaseDirectory Linux env' w2
       = (Returned (path_append ["/"; "opt"; "app"] "TeknoParrot"), w2).
Proof.
  exact (proj1 (base_directory_computed_once Linux unix_env
                  (SimFS.world writable_install) eq_refl)
               ["/"; "opt"; "app"] eq_refl).
Defined.

(** Counterexample to C6 as stated: the first call is made while the system
    can tell neither the executable nor the working directory; it throws
    and leaves the flag clear, and the second call computes the base
    directory from what the system tells then, with the query and the probe
    that a cached value would have spared. *)
Lemma base_directory_first_call_need_not_win :
  let first := GetTeknoParrotBaseDirectory Linux lost_env
                 (SimFS.world writable_install) in
  let second := GetTeknoParrotBaseDirectory Linux unix_env (snd first) in
  fst first = Thrown (filesystem_error [])
  /\ initialized (w_statics (snd first)) = false
  /\ fst second = Returned ["/"; "opt"; "app"; "TeknoParrot"]
  /\ new_events (snd first) (snd second)
     = [EvExecutableQuery;
        EvExists ["/"; "opt"; "app"; "TeknoParrot"] false 0;
        EvCreateDirectories ["/"; "opt"; "app"; "TeknoParrot"]].
Proof. vm_compute. repeat split; reflexivity. Qed.

Example base_directory_of_the_sample_process :
  fst (GetTeknoParrotBaseDirectory Linux unix_env (SimFS.world writable_install))
  = Returned ["/"; "opt"; "app"; "TeknoParrot"].
Proof. vm_compute. reflexivity. Qed.

(** C4, at the input where the code departs from it: on Windows the failure
    of the query is not looked at; the directory returned is the parent of
    whatever the buffer holds, not the working directory, and the working
    directory is never asked for. *)
Theorem GetExecutableDirectory_win32_ignores_query_failure :
  GetExecutableDirectory Win32Desktop win32_query_failure_env (SimFS.world ∅)
  = (Returned ["C:"; "\"; "Temp"],
     mkWorld ∅ initial_statics [EvExecutableQuery])
  /\ Some ["C:"; "\"; "Temp"] <> current_path win32_query_failure_env.
Proof. split; [vm_compute; reflexivity | discriminate]. Qed.

(** ** Application resources on the AppImage and Flatpak aware branch *)

Section AppResources.
Context {FS : Type} `{FileSystem FS}.




End AppResources.


Example flatpak_comes_second :
  fst (GetAppResourcesPath_unix Linux unix_env (SimFS.world appimage_and_flatpak))
  = Returned ["/"; "app"; "share"].
Proof. vm_compute. reflexivity. Qed.

Example executable_directory_comes_last :
  GetAppResourcesPath_unix Linux unix_env (SimFS.world writable_install)
  = (Returned ["/"; "opt"; "app"],
     mkWorld writable_install initial_statics
             [EvGetenv "APPIMAGE"; EvExists ["/"; "app"; "share"] false 0;
              EvExecutableQuery]).
Proof. vm_compute. reflexivity. Qed.

(** ** The Android setters *)

Section Frame.
Context {FS : Type} `{FileSystem FS}.

(** A change of the statics that keeps the two statics of the base
    directory and is not undone by their being written. *)
Variable F : Statics -> Statics.
Hypothesis F_initialized : forall st, initialized (F st) = initialized st.
Hypothesis F_path : forall st, teknoParrotPath (F st) = teknoParrotPath st.
Hypothesis F_write : forall st tp i,
  F {| teknoParrotPath := tp; initialized := i;
       s_filesDirPath := s_filesDirPath st;
       s_cacheDirPath := s_cacheDirPath st |}
  = {| teknoParrotPath := tp; initialized := i;
       s_filesDirPath := s_filesDirPath (F st);
       s_cacheDirPath := s_cacheDirPath (F st) |}.

Local Abbreviation g := (on_statics (FS:=FS) F).

Lemma unaffected_ret {A} (a : A) : unaffected_by g (ret a).
Proof. done. Qed.

Lemma unaffected_throw {A} e : unaffected_by g (throw (A:=A) e).
Proof. done. Qed.

Lemma unaffected_log ev : unaffected_by g (log ev).
Proof. done. Qed.

Lemma unaffected_exists_ec p : unaffected_by g (exists_ec p).
Proof. done. Qed.

Lemma unaffected_create_directory p : unaffected_by g (create_directory p).
Proof.
  intros w. unfold create_directory, on_statics. simpl.
  by destruct (fs_create_directory (w_fs w) p).
Qed.

Lemma unaffected_bind {A B} (m : M FS A) (k : A -> M FS B) :
  unaffected_by g m -> (forall a, unaffected_by g (k a)) ->
  unaffected_by g (bind m k).
Proof.
  intros Hm Hk w. unfold bind. rewrite Hm.
  destruct (m w) as [[a|e|] w']; simpl; [apply Hk|done|done].
Qed.

Lemma unaffected_body pl p : unaffected_by g (EnsurePathExists_body pl p).
Proof.
  unfold EnsurePathExists_body.
  apply unaffected_bind; [apply unaffected_exists_ec|]. intros [r ec].
  apply unaffected_bind.
  - repeat match goal with
           | |- unaffected_by _ (if ?c then _ else _) => destruct c
           end; done.
  - intros [[|]|]; simpl; [done|apply unaffected_create_directory|done].
Qed.

Lemma unaffected_loop pl rest :
  forall built, unaffected_by g (EnsurePathExists_loop pl built rest).
Proof.
  induction rest as [|e rest IH]; intros built; [done|].
  simpl. apply unaffected_bind; [apply unaffected_body|]. intros _. apply IH.
Qed.

Lemma unaffected_executable_directory pl env :
  unaffected_by g (GetExecutableDirectory pl env).
Proof.
  intros w. destruct (GetExecutableDirectory_runs (FS:=FS) pl env)
    as (r & tr & Hexe & _ & _).
  by rewrite !Hexe.
Qed.

Lemma unaffected_base pl env :
  unaffected_by g (GetTeknoParrotBaseDirectory pl env).
Proof.
  intros w. destruct (initialized (w_statics w)) eqn:Hi.
  - rewrite !GetTeknoParrotBaseDirectory_cached; simpl;
      rewrite ?F_initialized, ?F_path; done.
  - destruct (GetExecutableDirectory_runs (FS:=FS) pl env)
      as (r & tr & Hexe & _ & Hdef).
    assert (Hi' : initialized (w_statics (g w)) = false).
    { simpl. by rewrite F_initialized. }
    destruct r as [d|e|]; [| |done].
    + rewrite (GetTeknoParrotBaseDirectory_first pl env w _ d Hi (Hexe w)).
      rewrite (GetTeknoParrotBaseDirectory_first pl env (g w) _ d Hi' (Hexe (g w))).
      simpl.
      destruct (fs_exists (w_fs w) (path_append d "TeknoParrot")) as [[|] ec];
        simpl; unfold on_statics; simpl; by rewrite F_write.
    + rewrite (GetTeknoParrotBaseDirectory_first_thrown pl env w _ e Hi (Hexe w)).
      by rewrite (GetTeknoParrotBaseDirectory_first_thrown
                    pl env (g w) _ e Hi' (Hexe (g w))).
Qed.

Lemma unaffected_ensured_under_base pl env sub :
  unaffected_by g (ensured_under_base pl env sub).
Proof.
  unfold ensured_under_base.
  apply unaffected_bind; [apply unaffected_base|]. intros base.
  apply unaffected_bind; [apply unaffected_loop|]. done.
Qed.

Lemma android_getters_unaffected (getter : Platform -> option (Env -> M FS path)) f env :
  getter ∈ [GetRoamingDataPath; GetPersonalDataPath; GetCachePath;
            GetAppResourcesPath] ->
  getter Android = Some f -> unaffected_by g (f env).
Proof.
  rewrite !elem_of_cons, elem_of_nil.
  intros [->|[->|[->|[->|[]]]]]; cbn; intros [= <-];
    first [apply unaffected_ensured_under_base | apply unaffected_base].
Qed.

End Frame.

Section AndroidSetters.
Context {FS : Type} `{FileSystem FS}.

(** C10. On Android each of the two setters returns normally having done
    one thing, overwriting its own static; and every getter run after such
    a store gives the result it gives without it, leaving the world it
    would have left but for the stored string. *)
Theorem android_setters_only_store (v : string) env (w : World FS) :
  exists setFiles setCache,
    SetFilesDirPath Android = Some setFiles
    /\ SetCacheDirPath Android = Some setCache
    /\ setFiles v w = (Returned tt, with_filesDirPath v w)
    /\ setCache v w = (Returned tt, with_cacheDirPath v w)
    /\ forall (getter : Platform -> option (Env -> M FS path)) f,
         getter ∈ [GetRoamingDataPath; GetPersonalDataPath; GetCachePath;
                   GetAppResourcesPath] ->
         getter Android = Some f ->
         f env (with_filesDirPath v w)
         = (fst (f env w), with_filesDirPath v (snd (f env w)))
         /\ f env (with_cacheDirPath v w)
            = (fst (f env w), with_cacheDirPath v (snd (f env w))).
Proof.
  eexists _, _. split; [reflexivity|]. split; [reflexivity|].
  split; [reflexivity|]. split; [reflexivity|].
  intros getter f Hin Hf. split.
  - apply (android_getters_unaffected
             (fun st => {| teknoParrotPath := teknoParrotPath st;
                           initialized := initialized st;
                           s_filesDirPath := v;
                           s_cacheDirPath := s_cacheDirPath st |}))
      with (getter := getter); done.
  - apply (android_getters_unaffected
             (fun st => {| teknoParrotPath := teknoParrotPath st;
                           initialized := initialized st;
                           s_filesDirPath := s_filesDirPath st;
                           s_cacheDirPath := v |}))
      with (getter := getter); done.
Qed.

End AndroidSetters.

Example injected_files_dir_is_not_used :
  fst (ensured_under_base Android unix_env ["Documents"]
         (with_filesDirPath "/data/user/0/game/files" (SimFS.world writable_install)))
  = Returned ["/"; "opt"; "app"; "TeknoParrot"; "Documents"].
Proof. vm_compute. reflexivity. Qed.

(** ** Native strings: there and back *)

Section Utf8Facts.
Local Open Scope Z_scope.
Import Utf8.

Local Ltac tests :=
  repeat match goal with
         | |- context [(?a <? ?b)] =>
             destruct (Z.ltb_spec a b); try (exfalso; Z.div_mod_to_equations; lia)
         | |- context [(?a <=? ?b)] =>
             destruct (Z.leb_spec a b); try (exfalso; Z.div_mod_to_equations; lia)
         end.

(** Decoding reads back the bytes of one code point and goes on with what
    follows. *)
Lemma decode_encoded_code_point cp rest :
  in_code_space cp ->
  code_points_of_utf8 (encode_code_point cp ++ rest)
  = cp :: code_points_of_utf8 rest.
Proof.
  unfold in_code_space, encode_code_point. intros Hcp.
  destruct (Z.ltb_spec cp 128).
  { cbn [app code_points_of_utf8]. tests. done. }
  destruct (Z.ltb_spec cp 2048).
  { cbn [app code_points_of_utf8]. unfold is_continuation. tests.
    cbn [andb]. f_equal. Z.div_mod_to_equations. lia. }
  destruct (Z.ltb_spec cp 65536).
  { cbn [app code_points_of_utf8]. unfold is_continuation. tests.
    cbn [andb]. f_equal. Z.div_mod_to_equations. lia. }
  cbn [app code_points_of_utf8]. unfold is_continuation. tests.
  cbn [andb]. f_equal. Z.div_mod_to_equations. lia.
Qed.

Lemma decode_encoded_code_points cps :
  Forall in_code_space cps ->
  code_points_of_utf8 (flat_map encode_code_point cps) = cps.
Proof.
  induction 1 as [|cp cps Hcp _ IH]; [done|].
  cbn [flat_map]. rewrite decode_encoded_code_point by done. by rewrite IH.
Qed.

(** The code points of a well-formed wide string are in range and give the
    string back. *)
Lemma wide_of_code_points_of_wide n : forall w : std_wstring,
  (length w <= n)%nat ->
  well_formed_wide w = true ->
  Forall in_code_space (code_points_of_wide w)
  /\ flat_map wide_of_code_point (code_points_of_wide w) = w.
Proof.
  induction n as [|n IH]; intros w Hlen Hwf.
  { destruct w; [done | simpl in Hlen; lia]. }
  destruct w as [|u t]; [done|].
  cbn [well_formed_wide] in Hwf. cbn [code_points_of_wide].
  apply andb_prop in Hwf as [Hrange Hwf].
  apply andb_prop in Hrange as [Hlo Hhi].
  apply Z.leb_le in Hlo. apply Z.ltb_lt in Hhi.
  destruct (is_high_surrogate u) eqn:Hhigh.
  - destruct t as [|v t']; [done|].
    apply andb_prop in Hwf as [Hlow Hwf]. rewrite Hlow.
    destruct (IH t') as [Hcps Hback]; [simpl in Hlen; lia | done |].
    unfold is_high_surrogate in Hhigh. unfold is_low_surrogate in Hlow.
    apply andb_prop in Hhigh as [Hh1 Hh2]. apply andb_prop in Hlow as [Hl1 Hl2].
    apply Z.leb_le in Hh1, Hl1. apply Z.ltb_lt in Hh2, Hl2.
    split.
    + constructor; [unfold in_code_space; lia | done].
    + cbn [flat_map]. rewrite Hback. unfold wide_of_code_point.
      destruct (Z.ltb_spec (65536 + (u - 55296) * 1024 + (v - 56320)) 65536);
        [lia|].
      cbn [app]. f_equal; [|f_equal]; Z.div_mod_to_equations; lia.
  - apply andb_prop in Hwf as [Hnlow Hwf].
    apply negb_true_iff in Hnlow. rewrite Hnlow.
    destruct (IH t) as [Hcps Hback]; [simpl in Hlen; lia | done |].
    split.
    + constructor; [unfold in_code_space; lia | done].
    + cbn [flat_map]. rewrite Hback. unfold wide_of_code_point.
      destruct (Z.ltb_spec u 65536); [done | lia].
Qed.

Lemma ConvertFrom_ConvertTo (w : std_wstring) :
  well_formed_wide w = true -> ConvertFrom (ConvertTo w) = w.
Proof.
  intros Hwf. unfold ConvertFrom, ConvertTo.
  destruct (wide_of_code_points_of_wide (length w) w) as [Hcps Hback];
    [lia | done |].
  by rewrite decode_encoded_code_points.
Qed.

End Utf8Facts.

(** C7. A path built from portable characters comes back equal after being
    turned into its native string and read again, with narrow strings, where
    both conversions are the identity, and with wide strings, where they go
    through UTF-8. *)
Theorem native_string_round_trip (wide : bool) (P : native_path wide) :
  portable P = true ->
  GetPathFromNativeString wide (GetNativeStringFromPath P) = P.
Proof.
  destruct wide; destruct P as [str]; unfold GetPathFromNativeString,
    GetNativeStringFromPath, portable; cbn; intros Hp; [|done].
  f_equal. by apply ConvertFrom_ConvertTo.
Qed.

(** Witness of C7: the wide string of [C:\] followed by U+00E9, U+20AC and
    U+1F600, the last a surrogate pair. *)
Lemma native_string_round_trip_witness :
  GetPathFromNativeString true
    (GetNativeStringFromPath
       (fs_path_of (wide:=true) [67; 58; 92; 233; 8364; 55357; 56832]%Z))
  = fs_path_of (wide:=true) [67; 58; 92; 233; 8364; 55357; 56832]%Z.
Proof.
  exact (native_string_round_trip true
           (fs_path_of (wide:=true) [67; 58; 92; 233; 8364; 55357; 56832]%Z)
           eq_refl).
Defined.

Example utf8_of_the_sample :
  GetNativeStringFromPath
    (fs_path_of (wide:=true) [67; 58; 92; 233; 8364; 55357; 56832]%Z)
  = [67; 58; 92; 195; 169; 226; 130; 172; 240; 159; 152; 128]%Z.
Proof. vm_compute. reflexivity. Qed.

Example narrow_strings_pass_through :
  GetNativeStringFromPath (fs_path_of (wide:=false) [47; 195; 40; 255]%Z)
  = [47; 195; 40; 255]%Z.
Proof. reflexivity. Qed.

(** ** Sample runs *)


(** Witness of C10: [GetCachePath] after a store into [s_cacheDirPath]. *)
Lemma android_setters_only_store_witness :
  let w := SimFS.world writable_install in
  let plain := ensured_under_base Android unix_env ["Cache"] w in
  ensured_under_base Android unix_env ["Cache"]
    (with_cacheDirPath "/data/user/0/game/cache" w)
  = (fst plain, with_cacheDirPath "/data/user/0/game/cache" (snd plain)).
Proof.
  destruct (android_setters_only_store
              "/data/user/0/game/cache" unix_env (SimFS.world writable_install))
    as (_ & _ & _ & _ & _ & _ & Hget).
  refine (proj2 (Hget GetCachePath _ _ eq_refl)).
  apply elem_of_cons; right. apply elem_of_cons; right. apply elem_of_cons; by left.
Defined.

(** With [/opt/app/TeknoParrot] missing, one call of [GetPersonalDataPath]
    makes it and [Documents] under it. *)
Example personal_data_path_from_scratch :
  ensured_under_base Linux unix_env ["Documents"] (SimFS.world writable_install)
  = (Returned ["/"; "opt"; "app"; "TeknoParrot"; "Documents"],
     mkWorld
       (<[ ["/"; "opt"; "app"; "TeknoParrot"; "Documents"] := Directory true ]>
          (<[ ["/"; "opt"; "app"; "TeknoParrot"] := Directory true ]>
             writable_install))
       {| teknoParrotPath := ["/"; "opt"; "app"; "TeknoParrot"];
          initialized := true;
          s_filesDirPath := EmptyString; s_cacheDirPath := EmptyString |}
       [EvExecutableQuery;
        EvExists ["/"; "opt"; "app"; "TeknoParrot"] false 0;
        EvCreateDirectories ["/"; "opt"; "app"; "TeknoParrot"];
        EvExists ["/"] true 0; EvExists ["/"; "opt"] true 0;
        EvExists ["/"; "opt"; "app"] true 0;
        EvExists ["/"; "opt"; "app"; "TeknoParrot"] true 0;
        EvExists ["/"; "opt"; "app"; "TeknoParrot"; "Documents"] false 0;
        EvCreateDirectory ["/"; "opt"; "app"; "TeknoParrot"; "Documents"] true]).
Proof. vm_compute. reflexivity. Qed.

(** * Further properties *)

(** ** More on the shape of a run *)

Section WalkEnds.
Variable pl : Platform.

Lemma probes_last_exists tr q r ec :
  last (probes (tr ++ [EvExists q r ec])) = Some q.
Proof.
  unfold probes. rewrite omap_app. cbn. by rewrite last_snoc.
Qed.

(** A run that returns has probed every prefix. *)
Lemma walk_returned_probes built rest tr res :
  walk pl built rest tr res -> res = Returned tt ->
  probes tr = map (fun i => built ++ take i rest) (seq 1 (length rest)).
Proof.
  induction 1 as [built|built e rest r ec tr res Hv Hw IH
                  |built e rest r ec tr res Hv Hw IH
                  |built e rest r ec Hv|built e rest r ec Hv];
    intros Hres; try discriminate.
  - done.
  - rewrite probes_exists, IH by done. cbn [length seq map]. f_equal.
    rewrite <- (seq_shift (length rest) 1), map_map.
    apply map_ext; intros i. apply take_S_cons_app.
  - rewrite probes_exists, probes_create, IH by done. cbn [length seq map].
    f_equal. rewrite <- (seq_shift (length rest) 1), map_map.
    apply map_ext; intros i. apply take_S_cons_app.
Qed.

(** A run that throws ends with the event that failed, on the deepest prefix
    it probed. *)
Lemma walk_thrown_last built rest tr e :
  walk pl built rest tr (Thrown e) ->
  exists q,
    last (probes tr) = Some q
    /\ ((exists r ec,
           last tr = Some (EvExists q r ec) /\ verdict pl r ec = Fatal
           /\ e = runtime_error "Couldn't ensure that path exists.")
        \/ (last tr = Some (EvCreateDirectory q false)
            /\ e = filesystem_error q)).
Proof.
  remember (Thrown e) as res eqn:Hres.
  induction 1 as [built|built e0 rest r ec tr res Hv Hw IH
                  |built e0 rest r ec tr res Hv Hw IH
                  |built e0 rest r ec Hv|built e0 rest r ec Hv];
    try discriminate.
  - destruct (IH Hres) as (q & Hq & Hcase). exists q.
    assert (Hne : tr <> []).
    { intros ->. by destruct Hcase as [(? & ? & ? & _)|[? _]]. }
    destruct tr as [|ev tr']; [done|].
    rewrite probes_exists. split.
    + destruct (probes (ev :: tr')) eqn:Hp; [done|]. by rewrite last_cons_cons.
    + by rewrite last_cons_cons.
  - destruct (IH Hres) as (q & Hq & Hcase). exists q.
    destruct tr as [|ev tr'].
    { by destruct Hcase as [(? & ? & ? & _)|[? _]]. }
    rewrite probes_exists, probes_create. split.
    + destruct (probes (ev :: tr')) eqn:Hp; [done|]. by rewrite last_cons_cons.
    + by rewrite !last_cons_cons.
  - injection Hres as <-. exists (path_append built e0).
    split; [done|]. by right.
  - injection Hres as <-. exists (path_append built e0).
    split; [done|]. left. by exists r, ec.
Qed.

End WalkEnds.

(** ** [EnsurePathExists]: what a finished call has done *)

Section EnsureOutcome.
Context {FS : Type} `{FileSystem FS}.

(** X4. A call that returns normally has probed every prefix of the path,
    shortest first, each once: none is skipped, whatever the probes
    answered. *)
Theorem EnsurePathExists_returned_probed_all pl (p : path) (w : World FS) :
  fst (EnsurePathExists pl p w) = Returned tt ->
  probes (new_events w (snd (EnsurePathExists pl p w)))
  = map (fun k => take k p) (seq 1 (length p)).
Proof.
  intros Hres.
  by apply (walk_returned_probes _ _ _ _ _ (EnsurePathExists_walk pl p w)).
Qed.

(** X7. A call that throws stops at once: the failing probe or creation is
    the last event, and it concerns the deepest prefix that was probed, so no
    deeper prefix is looked at and nothing is retried. *)
Theorem EnsurePathExists_stops_at_failure pl (p : path) (w : World FS) e :
  fst (EnsurePathExists pl p w) = Thrown e ->
  let tr := new_events w (snd (EnsurePathExists pl p w)) in
  exists q,
    last (probes tr) = Some q
    /\ ((exists r ec,
           last tr = Some (EvExists q r ec)
           /\ unexpected_probe_error pl ec = true
           /\ e = runtime_error "Couldn't ensure that path exists.")
        \/ (last tr = Some (EvCreateDirectory q false)
            /\ e = filesystem_error q)).
Proof.
  intros Hres tr.
  pose proof (EnsurePathExists_walk pl p w) as Hw. rewrite Hres in Hw.
  destruct (walk_thrown_last _ _ _ _ _ Hw) as (q & Hq & Hcase).
  exists q. split; [done|].
  destruct Hcase as [(r & ec & Hl & Hv & He)|Hc]; [left|by right].
  exists r, ec. split; [done|]. split; [|done]. by apply (verdict_fatal pl r ec).
Qed.

(** The loop over prefixes that all probe as present. *)
Lemma loop_all_present pl rest : forall built (w : World FS),
  (forall k, 1 <= k <= length rest ->
             fs_exists (w_fs w) (built ++ take k rest) = (true, 0%Z)) ->
  EnsurePathExists_loop pl built rest w
  = (Returned tt,
     mkWorld (w_fs w) (w_statics w)
             (w_trace w ++
                map (fun k => EvExists (built ++ take k rest) true 0)
                    (seq 1 (length rest)))).
Proof.
  induction rest as [|e rest IH]; intros built w Hall.
  - simpl. rewrite app_nil_r. by destruct w.
  - rewrite loop_cons, body_run.
    pose proof (Hall 1 ltac:(simpl; lia)) as H1. simpl in H1. rewrite take_0 in H1.
    change (built ++ [e]) with (path_append built e) in H1.
    rewrite H1. cbn [fst snd]. rewrite verdict_true_clear.
    rewrite IH.
    + cbn [w_fs w_statics w_trace length seq map]. rewrite <- app_assoc.
      cbn [app]. do 4 f_equal.
      rewrite <- (seq_shift (length rest) 1), map_map.
      apply map_ext; intros i. by rewrite take_S_cons_app.
    + intros k Hk. cbn [w_fs]. rewrite take_S_cons_app.
      apply Hall. simpl. lia.
Qed.

(** X3. When every prefix of the path already probes as present, the call
    returns normally after one probe per prefix, attempts no creation and
    leaves the filesystem as it was. *)
Theorem EnsurePathExists_on_existing_path pl (p : path) (w : World FS) :
  (forall k, 1 <= k <= length p ->
             fs_exists (w_fs w) (take k p) = (true, 0%Z)) ->
  EnsurePathExists pl p w
  = (Returned tt,
     mkWorld (w_fs w) (w_statics w)
             (w_trace w ++
                map (fun k => EvExists (take k p) true 0) (seq 1 (length p)))).
Proof.
  intros Hall. unfold EnsurePathExists. by rewrite loop_all_present.
Qed.

End EnsureOutcome.

Section EnsurePostcondition.
Context {FS : Type} `{FileSystemLaws FS}.

(** One turn of the loop that returns leaves its prefix present, or, on
    Windows, answering access-denied. *)
Lemma body_returned_present pl p (w : World FS) :
  fst (EnsurePathExists_body pl p w) = Returned tt ->
  let s' := w_fs (snd (EnsurePathExists_body pl p w)) in
  fs_exists s' p = (true, 0%Z)
  \/ (def_WIN32 pl = true /\ snd (fs_exists s' p) = ERROR_ACCESS_DENIED).
Proof.
  rewrite body_run.
  destruct (fs_exists (w_fs w) p) as [r ec] eqn:Hprobe; cbn [fst snd].
  destruct (verdict pl r ec) eqn:Hv.
  - intros _. cbn. rewrite Hprobe.
    destruct (verdict_present _ _ _ Hv) as [[-> ->]|[? ->]]; [by left|by right].
  - unfold create_directory; cbn.
    destruct (fs_create_directory (w_fs w) p) as [s1|] eqn:Hc; [|done].
    intros _. left. cbn. by eapply create_then_exists.
  - done.
Qed.

Lemma loop_returned_all_present pl rest : forall built (w : World FS),
  fst (EnsurePathExists_loop pl built rest w) = Returned tt ->
  forall k, 1 <= k <= length rest ->
    let s' := w_fs (snd (EnsurePathExists_loop pl built rest w)) in
    fs_exists s' (built ++ take k rest) = (true, 0%Z)
    \/ (def_WIN32 pl = true
        /\ snd (fs_exists s' (built ++ take k rest)) = ERROR_ACCESS_DENIED).
Proof.
  induction rest as [|e rest IH]; intros built w Hres k Hk.
  { simpl in Hk. lia. }
  rewrite loop_cons in Hres |- *.
  pose proof (body_returned_present pl (path_append built e) w) as Hbody.
  destruct (EnsurePathExists_body pl (path_append built e) w)
    as [[[]|ex|] w1] eqn:Hb; [|done|done].
  destruct k as [|[|k]]; [lia| |].
  - simpl. rewrite take_0.
    change (built ++ [e]) with (path_append built e).
    rewrite loop_keeps_probe by done. by apply Hbody.
  - rewrite <- take_S_cons_app. apply IH; [done|]. simpl in Hk. lia.
Qed.

(** X5. After a call that returns normally every prefix of the path, not
    only the path itself, probes as present, or, on Windows, answers
    access-denied. *)
Theorem EnsurePathExists_returned_all_prefixes_present
        pl (p : path) (w : World FS) k :
  fst (EnsurePathExists pl p w) = Returned tt ->
  1 <= k <= length p ->
  let s' := w_fs (snd (EnsurePathExists pl p w)) in
  fs_exists s' (take k p) = (true, 0%Z)
  \/ (def_WIN32 pl = true
      /\ snd (fs_exists s' (take k p)) = ERROR_ACCESS_DENIED).
Proof.
  intros Hres Hk. by apply (loop_returned_all_present pl p [] w).
Qed.

Lemma new_events_step (w w1 w2 : World FS) a :
  w_trace w1 = w_trace w ++ a ->
  (exists b, w_trace w2 = w_trace w1 ++ b) ->
  new_events w w2 = a ++ new_events w1 w2.
Proof.
  intros H1 [b H2]. unfold new_events.
  rewrite H2, drop_app_length, H1, <- app_assoc, drop_app_length. done.
Qed.

Lemma loop_created_stay pl rest : forall built (w : World FS) q,
  EvCreateDirectory q true
    ∈ new_events w (snd (EnsurePathExists_loop pl built rest w)) ->
  fs_exists (w_fs (snd (EnsurePathExists_loop pl built rest w))) q
  = (true, 0%Z).
Proof.
  induction rest as [|e rest IH]; intros built w q.
  { unfold new_events. simpl. rewrite drop_all. by intros ?%elem_of_nil. }
  set (p := path_append built e).
  rewrite loop_cons, body_run. fold p.
  destruct (fs_exists (w_fs w) p) as [r ec] eqn:Hprobe; cbn [fst snd].
  destruct (verdict pl r ec) eqn:Hv.
  - match goal with |- context [EnsurePathExists_loop pl p rest ?x] =>
      set (w1 := x) end.
    destruct (loop_walk pl rest p w1) as (delta & Ht & _ & _).
    rewrite (new_events_step w w1 _ [EvExists p r ec]) by (done || eauto).
    intros [?|Hin]%elem_of_cons; [done|]. by apply IH.
  - unfold create_directory; cbn [w_fs w_statics w_trace].
    destruct (fs_create_directory (w_fs w) p) as [s1|] eqn:Hc.
    + match goal with |- context [EnsurePathExists_loop pl p rest ?x] =>
        set (w1 := x) end.
      destruct (loop_walk pl rest p w1) as (delta & Ht & _ & _).
      rewrite (new_events_step w w1 _ [EvExists p r ec; EvCreateDirectory p true]).
      2: { simpl. by rewrite <- app_assoc. }
      2: { eauto. }
      intros [?|[Heq|Hin]%elem_of_cons]%elem_of_cons; [done| |by apply IH].
      injection Heq as ->. rewrite loop_keeps_probe by done.
      cbn. by eapply create_then_exists.
    + unfold new_events. cbn. rewrite <- app_assoc, drop_app_length.
      intros [?|[?|?%elem_of_nil]%elem_of_cons]%elem_of_cons; done.
  - unfold new_events. cbn. rewrite drop_app_length.
    intros [?|?%elem_of_nil]%elem_of_cons; done.
Qed.

(** X6. Nothing is rolled back: a prefix whose creation succeeded during the
    call probes as present when the call ends, also when the call ends with
    an exception on a deeper prefix. *)
Theorem EnsurePathExists_created_prefixes_stay pl (p : path) (w : World FS) q :
  EvCreateDirectory q true ∈ new_events w (snd (EnsurePathExists pl p w)) ->
  fs_exists (w_fs (snd (EnsurePathExists pl p w))) q = (true, 0%Z).
Proof. apply loop_created_stay. Qed.

End EnsurePostcondition.

(** Witness of X4: two directories to make, four prefixes probed. *)
Lemma EnsurePathExists_returned_probed_all_witness :
  probes (new_events (SimFS.world writable_install)
            (snd (EnsurePathExists Linux ["/"; "opt"; "app"; "TeknoParrot"; "Cache"]
                    (SimFS.world writable_install))))
  = map (fun k => take k ["/"; "opt"; "app"; "TeknoParrot"; "Cache"]) (seq 1 5).
Proof.
  exact (EnsurePathExists_returned_probed_all
           Linux ["/"; "opt"; "app"; "TeknoParrot"; "Cache"]
           (SimFS.world writable_install) eq_refl).
Defined.

(** Witness of X7: the creation of [/opt/app/TeknoParrot] fails; [Cache]
    below it is never probed. *)
Lemma EnsurePathExists_stops_at_failure_witness :
  let w := SimFS.world read_only_install in
  let tr := new_events w
              (snd (EnsurePathExists Linux
                      ["/"; "opt"; "app"; "TeknoParrot"; "Cache"] w)) in
  exists q,
    last (probes tr) = Some q
    /\ ((exists r ec,
           last tr = Some (EvExists q r ec)
           /\ unexpected_probe_error Linux ec = true
           /\ filesystem_error ["/"; "opt"; "app"; "TeknoParrot"]
              = runtime_error "Couldn't ensure that path exists.")
        \/ (last tr = Some (EvCreateDirectory q false)
            /\ filesystem_error ["/"; "opt"; "app"; "TeknoParrot"]
               = filesystem_error q)).
Proof.
  exact (EnsurePathExists_stops_at_failure
           Linux ["/"; "opt"; "app"; "TeknoParrot"; "Cache"]
           (SimFS.world read_only_install)
           (filesystem_error ["/"; "opt"; "app"; "TeknoParrot"]) eq_refl).
Defined.

(** Witness of X3: [/opt/app] is there already. *)
Lemma EnsurePathExists_on_existing_path_witness :
  EnsurePathExists Linux ["/"; "opt"; "app"] (SimFS.world writable_install)
  = (Returned tt,
     mkWorld writable_install initial_statics
             ([] ++ map (fun k => EvExists (take k ["/"; "opt"; "app"]) true 0)
                        (seq 1 3))).
Proof.
  apply (EnsurePathExists_on_existing_path
           Linux ["/"; "opt"; "app"] (SimFS.world writable_install)).
  intros k Hk. simpl in Hk.
  destruct k as [|[|[|[|k]]]]; try lia; reflexivity.
Defined.

(** Witness of X5: after the call the intermediate [/opt/app/TeknoParrot]
    is present. *)
Lemma EnsurePathExists_returned_all_prefixes_present_witness :
  let s' := w_fs (snd (EnsurePathExists Linux
                         ["/"; "opt"; "app"; "TeknoParrot"; "Cache"]
                         (SimFS.world writable_install))) in
  fs_exists s' (take 4 ["/"; "opt"; "app"; "TeknoParrot"; "Cache"]) = (true, 0%Z)
  \/ (def_WIN32 Linux = true
      /\ snd (fs_exists s' (take 4 ["/"; "opt"; "app"; "TeknoParrot"; "Cache"]))
         = ERROR_ACCESS_DENIED).
Proof.
  apply (EnsurePathExists_returned_all_prefixes_present
           Linux ["/"; "opt"; "app"; "TeknoParrot"; "Cache"]
           (SimFS.world writable_install) 4).
  - reflexivity.
  - simpl. lia.
Defined.

(** Witness of X6: [/opt/app] is made, then the probe of [/opt/app/Cache]
    fails and the call throws; [/opt/app] is still there. *)
Lemma EnsurePathExists_created_prefixes_stay_witness :
  fst (EnsurePathExists Linux ["/"; "opt"; "app"; "Cache"]
         (SimFS.world unreadable_cache))
  = Thrown (runtime_error "Couldn't ensure that path exists.")
  /\ fs_exists (w_fs (snd (EnsurePathExists Linux ["/"; "opt"; "app"; "Cache"]
                             (SimFS.world unreadable_cache))))
               ["/"; "opt"; "app"]
     = (true, 0%Z).
Proof.
  split; [reflexivity|].
  apply (EnsurePathExists_created_prefixes_stay
           Linux ["/"; "opt"; "app"; "Cache"] (SimFS.world unreadable_cache)).
  apply list_elem_of_lookup. exists 3. reflexivity.
Defined.

(** ** The resolvers, one call after another *)

Section ResolverSequences.
Context {FS : Type} `{FileSystem FS}.

(** What a call of [GetTeknoParrotBaseDirectory] leaves in the statics. *)
Lemma GetTeknoParrotBaseDirectory_after pl env (w w1 : World FS) base :
  GetTeknoParrotBaseDirectory pl env w = (Returned base, w1) ->
  initialized (w_statics w1) = true /\ teknoParrotPath (w_statics w1) = base.
Proof.
  destruct (initialized (w_statics w)) eqn:Hi.
  - rewrite GetTeknoParrotBaseDirectory_cached by done. by intros [= <- <-].
  - destruct (GetExecutableDirectory_runs (FS:=FS) pl env)
      as (r & tr & Hexe & _ & Hdef).
    destruct r as [d|e|]; [| |done].
    + rewrite (GetTeknoParrotBaseDirectory_first pl env w _ d Hi (Hexe w)).
      intros [= <- <-]. by destruct (negb _).
    + by rewrite (GetTeknoParrotBaseDirectory_first_thrown pl env w _ e Hi (Hexe w)).
Qed.

(** A base call either returns or ends with the exception of
    [fs::current_path()], the statics untouched. *)
Lemma GetTeknoParrotBaseDirectory_thrown pl env (w w1 : World FS) e :
  GetTeknoParrotBaseDirectory pl env w = (Thrown e, w1) ->
  e = filesystem_error [] /\ current_path env = None
  /\ w_fs w1 = w_fs w /\ w_statics w1 = w_statics w.
Proof.
  destruct (initialized (w_statics w)) eqn:Hi.
  - by rewrite GetTeknoParrotBaseDirectory_cached.
  - destruct (GetExecutableDirectory_runs (FS:=FS) pl env)
      as (r & tr & Hexe & Hthrown & Hdef).
    destruct r as [d|e'|]; [| |done].
    + by rewrite (GetTeknoParrotBaseDirectory_first pl env w _ d Hi (Hexe w)).
    + rewrite (GetTeknoParrotBaseDirectory_first_thrown pl env w _ e' Hi (Hexe w)).
      intros [= <- <-]. destruct (Hthrown e' eq_refl). done.
Qed.

Lemma GetTeknoParrotBaseDirectory_defined pl env (w : World FS) :
  fst (GetTeknoParrotBaseDirectory pl env w) <> Undefined.
Proof.
  destruct (initialized (w_statics w)) eqn:Hi.
  - by rewrite GetTeknoParrotBaseDirectory_cached.
  - destruct (GetExecutableDirectory_runs (FS:=FS) pl env)
      as (r & tr & Hexe & _ & Hdef).
    destruct r as [d|e|]; [| |done].
    + by rewrite (GetTeknoParrotBaseDirectory_first pl env w _ d Hi (Hexe w)).
    + by rewrite (GetTeknoParrotBaseDirectory_first_thrown pl env w _ e Hi (Hexe w)).
Qed.

Lemma ensured_under_base_run pl env sub (w w1 : World FS) base :
  GetTeknoParrotBaseDirectory pl env w = (Returned base, w1) ->
  ensured_under_base pl env sub w
  = match EnsurePathExists pl (path_concat base sub) w1 with
    | (Returned _, w2) => (Returned (path_concat base sub), w2)
    | (Thrown e, w2) => (Thrown e, w2)
    | (Undefined, w2) => (Undefined, w2)
    end.
Proof. intros Hb. unfold ensured_under_base, bind. by rewrite Hb. Qed.

Lemma EnsurePathExists_statics pl p (w : World FS) :
  w_statics (snd (EnsurePathExists pl p w)) = w_statics w.
Proof. by destruct (loop_walk pl p [] w) as (_ & _ & _ & ?). Qed.

Lemma data_resolver_form pl (f : Env -> M FS path) :
  data_resolver pl f ->
  exists sub, sub <> [] /\ f = fun env => ensured_under_base pl env sub.
Proof.
  intros [Hf|[Hf|Hf]]; destruct pl; simpl in Hf;
    try discriminate; injection Hf as <-; eexists; split; try reflexivity; done.
Qed.

(** X8. Once the base directory is settled, the data directories all lie
    under it: when the base directory can be had in the world a first
    resolver is called in, then any resolver called after that one -- even if
    that one threw, and even if the system now reports another executable
    location or working directory -- finds that same base directory and, if
    it returns, returns a path under it. *)
Theorem data_resolvers_share_the_base
        pl f1 f2 env env' (w : World FS) (base : path) :
  data_resolver pl f1 -> data_resolver pl f2 ->
  fst (GetTeknoParrotBaseDirectory pl env w) = Returned base ->
  (forall p1, fst (f1 env w) = Returned p1 -> base `prefix_of` p1)
  /\ fst (GetTeknoParrotBaseDirectory pl env' (snd (f1 env w))) = Returned base
  /\ (forall p2, fst (f2 env' (snd (f1 env w))) = Returned p2 ->
                 base `prefix_of` p2).
Proof.
  intros (sub1 & _ & ->)%data_resolver_form (sub2 & _ & ->)%data_resolver_form.
  destruct (GetTeknoParrotBaseDirectory pl env w) as [rb w1] eqn:Hb.
  cbn [fst]. intros ->.
  destruct (GetTeknoParrotBaseDirectory_after pl env w w1 base Hb) as [Hi Hp].
  rewrite (ensured_under_base_run pl env sub1 w w1 base Hb).
  pose proof (EnsurePathExists_statics pl (path_concat base sub1) w1) as Hst.
  destruct (EnsurePathExists pl (path_concat base sub1) w1) as [r1 w2].
  cbn [snd] in Hst.
  assert (Hw2 : snd (match r1 with
                     | Returned _ => (Returned (path_concat base sub1), w2)
                     | Thrown e => (Thrown e, w2)
                     | Undefined => (Undefined, w2)
                     end) = w2) by (by destruct r1).
  rewrite Hw2.
  assert (Hb2 : GetTeknoParrotBaseDirectory pl env' w2 = (Returned base, w2)).
  { rewrite GetTeknoParrotBaseDirectory_cached; rewrite Hst; [|done].
    by rewrite Hp. }
  split; [|split].
  - intros p1 Hr. destruct r1; cbn in Hr; [|done|done].
    injection Hr as <-. by apply prefix_app_r.
  - by rewrite Hb2.
  - intros p2.
    rewrite (ensured_under_base_run pl env' sub2 w2 w2 base Hb2).
    destruct (EnsurePathExists pl (path_concat base sub2) w2) as [[[]|e|] w3];
      cbn; [|done|done].
    intros [= <-]. by apply prefix_app_r.
Qed.

(** The unix branch of [GetAppResourcesPath] only reads. *)
Lemma GetAppResourcesPath_unix_reads pl env (w : World FS) :
  exists r tr,
    GetAppResourcesPath_unix pl env w
    = (r, mkWorld (w_fs w) (w_statics w) (w_trace w ++ tr))
    /\ forall e, r = Thrown e ->
                 e = filesystem_error [] /\ current_path env = None.
Proof.
  destruct (GetExecutableDirectory_runs (FS:=FS) pl env)
    as (rd & etr & Hexe & Hthrown & _).
  assert (Hrest : forall w1 : World FS,
    exists r tr,
      (bind (exists_ec ["/"; "app"; "share"])
            (fun x => let '(exists_, existsErrorCode) := x in
                      if (existsErrorCode =? 0)%Z && exists_
                      then ret ["/"; "app"; "share"]
                      else GetExecutableDirectory pl env)) w1
      = (r, mkWorld (w_fs w1) (w_statics w1) (w_trace w1 ++ tr))
      /\ forall e, r = Thrown e ->
                   e = filesystem_error [] /\ current_path env = None).
  { intros w1. unfold bind, exists_ec, ret.
    destruct (fs_exists (w_fs w1) ["/"; "app"; "share"]) as [r2 ec2].
    cbn [fst snd]. destruct ((ec2 =? 0)%Z && r2).
    - by eexists _, [_].
    - rewrite Hexe. cbn. eexists _, (_ :: etr).
      split; [by rewrite <- app_assoc | done]. }
  unfold GetAppResourcesPath_unix.
  unfold bind at 1. unfold log at 1.
  destruct (getenv env "APPIMAGE") as [marker|].
  - unfold bind at 1. unfold bind at 1. unfold log at 1.
    destruct (getenv env "APPDIR") as [appDir|].
    + unfold bind at 1. unfold exists_ec at 1. cbn [w_fs w_statics w_trace fst snd].
      destruct (fs_exists (w_fs w) (path_concat (fs_path appDir) ["usr"; "share"]))
        as [r1 ec1]. cbn [fst snd].
      destruct (r1 && (ec1 =? 0)%Z); unfold ret at 1.
      * unfold ret. eexists _, [_; _; _].
        split; [by rewrite <- !app_assoc | done].
      * match goal with |- context [bind _ _ ?x] => destruct (Hrest x)
          as (r & tr & Hr & Hne) end.
        rewrite Hr. cbn. eexists r, (_ :: _ :: _ :: tr).
        split; [by rewrite <- !app_assoc | done].
    + unfold undefined_behaviour. cbn. eexists _, [_; _].
      split; [by rewrite <- !app_assoc | done].
  - unfold bind at 1. unfold ret at 1.
    match goal with |- context [bind _ _ ?x] => destruct (Hrest x)
      as (r & tr & Hr & Hne) end.
    rewrite Hr. cbn. eexists r, (_ :: tr).
    split; [by rewrite <- !app_assoc | done].
Qed.

(** X10. Off Android, [GetAppResourcesPath] only looks: it leaves the
    filesystem and the statics as they were, so it neither makes a directory
    nor settles the base directory; and the one exception it can end with is
    that of [fs::current_path()], reached through [GetExecutableDirectory]
    when the working directory cannot be had. *)
Theorem GetAppResourcesPath_only_reads pl f env (w : World FS) :
  GetAppResourcesPath pl = Some f ->
  def_ANDROID pl = false ->
  w_fs (snd (f env w)) = w_fs w
  /\ w_statics (snd (f env w)) = w_statics w
  /\ forall e, fst (f env w) = Thrown e ->
               e = filesystem_error [] /\ current_path env = None.
Proof.
  intros Hf Hand.
  destruct (GetExecutableDirectory_runs (FS:=FS) pl env)
    as (rd & etr & Hexe & Hthrown & _).
  destruct pl; try discriminate; unfold GetAppResourcesPath in Hf;
    cbn [def_WIN32 def_PARTITION_APP def_APPLE def_ANDROID def_linux
         def_FreeBSD def_EMSCRIPTEN orb] in Hf;
    injection Hf as <-; cbv beta.
  - by rewrite Hexe.
  - unfold bind, log, ret. destruct (bundle_resource_path env); [done|].
    by rewrite Hexe.
  - destruct (GetAppResourcesPath_unix_reads Linux env w) as (r & tr & -> & Hne).
    done.
  - destruct (GetAppResourcesPath_unix_reads FreeBSD env w) as (r & tr & -> & Hne).
    done.
  - destruct (GetAppResourcesPath_unix_reads Emscripten env w) as (r & tr & -> & Hne).
    done.
Qed.

End ResolverSequences.

Section ResolverAgain.
Context {FS : Type} `{FileSystemLaws FS}.

(** X9. A data resolver that has returned a path returns the same path when
    called again, whatever the system then reports about the executable, and
    the second call changes nothing in the filesystem. *)
Theorem data_resolver_called_again pl f env env' (w w1 : World FS) (p : path) :
  data_resolver pl f ->
  f env w = (Returned p, w1) ->
  fst (f env' w1) = Returned p /\ w_fs (snd (f env' w1)) = w_fs w1.
Proof.
  intros (sub & _ & ->)%data_resolver_form Hrun.
  destruct (GetTeknoParrotBaseDirectory pl env w) as [[base|e|] w0] eqn:Hb;
    [|by unfold ensured_under_base, bind in Hrun; rewrite Hb in Hrun..].
  destruct (GetTeknoParrotBaseDirectory_after pl env w w0 base Hb) as [Hi Hp].
  rewrite (ensured_under_base_run pl env sub w w0 base Hb) in Hrun.
  pose proof (EnsurePathExists_statics pl (path_concat base sub) w0) as Hst.
  destruct (EnsurePathExists pl (path_concat base sub) w0) as [[[]|e|] w2] eqn:Hens;
    [|done|done].
  injection Hrun as <- <-. cbn [snd] in Hst.
  assert (Hb2 : GetTeknoParrotBaseDirectory pl env' w2 = (Returned base, w2)).
  { rewrite GetTeknoParrotBaseDirectory_cached; rewrite Hst; [|done].
    by rewrite Hp. }
  rewrite (ensured_under_base_run pl env' sub w2 w2 base Hb2).
  destruct (loop_again pl (path_concat base sub) [] w0 w2) as [Hr Hs].
  { unfold EnsurePathExists in Hens. by rewrite Hens. }
  unfold EnsurePathExists in Hens |- *. rewrite Hens in Hr. cbn [fst] in Hr.
  destruct (EnsurePathExists_loop pl [] (path_concat base sub) w2) as [r3 w3].
  cbn [fst snd] in Hr, Hs. subst r3. done.
Qed.

End ResolverAgain.

(** ** [GetPathFromCsidl] *)

Section Csidl.
Context {FS : Type} `{FileSystem FS}.

Lemma GetPathFromCsidl_form pl (f : Z -> Env -> M FS path) :
  GetPathFromCsidl pl = Some f -> pl = Win32Desktop.
Proof. by destruct pl. Qed.

(** X1. [GetPathFromCsidl] looks at the low byte of the identifier only:
    flag bits above it change nothing, and an identifier whose low byte is
    none of the three known ones is answered like [CSIDL_LOCAL_APPDATA]. *)
Theorem GetPathFromCsidl_low_byte pl f (csidl flags : Z) env (w : World FS) :
  GetPathFromCsidl pl = Some f ->
  Z.land flags 255 = 0%Z ->
  f (Z.lor csidl flags) env w = f csidl env w
  /\ (Z.land csidl 255 <> CSIDL_APPDATA ->
      Z.land csidl 255 <> CSIDL_PERSONAL ->
      f csidl env w = f CSIDL_LOCAL_APPDATA env w).
Proof.
  intros Hf Hflags. pose proof (GetPathFromCsidl_form pl f Hf) as ->.
  injection Hf as <-. split.
  - by rewrite Z.land_lor_distr_l, Hflags, Z.lor_0_r.
  - intros Ha Hp. change (Z.land CSIDL_LOCAL_APPDATA 255) with CSIDL_LOCAL_APPDATA.
    destruct (Z.eqb_spec (Z.land csidl 255) CSIDL_APPDATA); [done|].
    destruct (Z.eqb_spec (Z.land csidl 255) CSIDL_PERSONAL); [done|].
    cbn. by destruct (Z.land csidl 255 =? CSIDL_LOCAL_APPDATA)%Z.
Qed.

(** X2. [GetPathFromCsidl] names the directories that the resolvers make,
    without making them: it does what [GetTeknoParrotBaseDirectory] does to
    the world and nothing more; for [CSIDL_APPDATA] and [CSIDL_PERSONAL] it
    returns the path that [GetRoamingDataPath] and [GetPersonalDataPath]
    return, and [GetCachePath] returns [Cache] under its answer for
    [CSIDL_LOCAL_APPDATA]. *)
Theorem GetPathFromCsidl_names_resolver_paths
        pl f fRoaming fPersonal fCache env (w : World FS) :
  GetPathFromCsidl pl = Some f ->
  GetRoamingDataPath pl = Some fRoaming ->
  GetPersonalDataPath pl = Some fPersonal ->
  GetCachePath pl = Some fCache ->
  (forall csidl, snd (f csidl env w) = snd (GetTeknoParrotBaseDirectory pl env w))
  /\ (forall p, fst (fRoaming env w) = Returned p ->
                fst (f CSIDL_APPDATA env w) = Returned p)
  /\ (forall p, fst (fPersonal env w) = Returned p ->
                fst (f CSIDL_PERSONAL env w) = Returned p)
  /\ (forall p, fst (fCache env w) = Returned p ->
                exists q, fst (f CSIDL_LOCAL_APPDATA env w) = Returned q
                          /\ p = path_append q "Cache").
Proof.
  intros Hf Hr Hp Hc. pose proof (GetPathFromCsidl_form pl f Hf) as ->.
  injection Hf as <-. injection Hr as <-. injection Hp as <-. injection Hc as <-.
  destruct (GetTeknoParrotBaseDirectory Win32Desktop env w)
    as [[base|e|] w1] eqn:Hb.
  2, 3: unfold ensured_under_base, bind; rewrite Hb; cbn;
        (split; [done|]); (split; [done|]); split; done.
  rewrite !(ensured_under_base_run Win32Desktop env _ w w1 base Hb).
  unfold bind. rewrite Hb. cbn [snd].
  split; [|split; [|split]].
  - intros csidl.
    repeat match goal with
           | |- context [if ?c then _ else _] => destruct c
           end; done.
  - intros p.
    destruct (EnsurePathExists Win32Desktop (path_concat base ["AppData"; "Roaming"]) w1)
      as [[[]|e|] w2]; cbn; [|done|done].
    intros [= <-]. unfold path_concat, path_append. by rewrite <- app_assoc.
  - intros p.
    destruct (EnsurePathExists Win32Desktop (path_concat base ["Documents"]) w1)
      as [[[]|e|] w2]; cbn; [|done|done].
    by intros [= <-].
  - intros p.
    destruct (EnsurePathExists Win32Desktop
                (path_concat base ["AppData"; "Local"; "Cache"]) w1)
      as [[[]|e|] w2]; cbn; [|done|done].
    intros [= <-]. eexists. split; [reflexivity|].
    unfold path_concat, path_append. by rewrite <- !app_assoc.
Qed.

End Csidl.

(** Witness of X8: [Documents] cannot be probed, so [GetPersonalDataPath]
    throws, after the base directory was settled; [GetCachePath], called
    next by a process that now looks like it runs from a mounted AppImage,
    returns [Cache] under [/opt/app/TeknoParrot]. *)
Lemma data_resolvers_share_the_base_witness :
  let f1 := fun env => ensured_under_base (FS:=gmap path Node) Linux env ["Documents"] in
  let f2 := fun env => ensured_under_base (FS:=gmap path Node) Linux env ["Cache"] in
  let w := SimFS.world unreadable_documents in
  fst (f1 unix_env w) = Thrown (runtime_error "Couldn't ensure that path exists.")
  /\ fst (f2 appimage_env (snd (f1 unix_env w)))
     = Returned ["/"; "opt"; "app"; "TeknoParrot"; "Cache"]
  /\ fst (GetTeknoParrotBaseDirectory Linux appimage_env (snd (f1 unix_env w)))
     = Returned ["/"; "opt"; "app"; "TeknoParrot"]
  /\ ["/"; "opt"; "app"; "TeknoParrot"]
       `prefix_of` ["/"; "opt"; "app"; "TeknoParrot"; "Cache"].
Proof.
  split; [reflexivity|]. split; [reflexivity|].
  destruct (@data_resolvers_share_the_base
              (gmap path Node) SimFS.sim_filesystem Linux
              (fun env => ensured_under_base Linux env ["Documents"])
              (fun env => ensured_under_base Linux env ["Cache"])
              unix_env appimage_env (SimFS.world unreadable_documents)
              ["/"; "opt"; "app"; "TeknoParrot"]
              (or_intror (or_introl eq_refl)) (or_intror (or_intror eq_refl))
              eq_refl)
    as (_ & Hbase & Hunder).
  split; [exact Hbase|].
  exact (Hunder ["/"; "opt"; "app"; "TeknoParrot"; "Cache"] eq_refl).
Defined.

(** Witness of X9: [GetPersonalDataPath] twice, the second time with the
    executable reported elsewhere. *)
Lemma data_resolver_called_again_witness :
  let f := fun env => ensured_under_base (FS:=gmap path Node) Linux env ["Documents"] in
  let w1 := snd (f unix_env (SimFS.world writable_install)) in
  fst (f appimage_env w1) = Returned ["/"; "opt"; "app"; "TeknoParrot"; "Documents"]
  /\ w_fs (snd (f appimage_env w1)) = w_fs w1.
Proof.
  exact (data_resolver_called_again Linux
           (fun env => ensured_under_base Linux env ["Documents"])
           unix_env appimage_env (SimFS.world writable_install)
           (snd (ensured_under_base Linux unix_env ["Documents"]
                   (SimFS.world writable_install)))
           ["/"; "opt"; "app"; "TeknoParrot"; "Documents"]
           (or_intror (or_introl eq_refl)) eq_refl).
Defined.

(** Witness of X10: the Linux resolver in a process that can learn neither
    its executable nor its working directory, on a machine without AppImage
    or Flatpak: it ends with the exception, having changed nothing. *)
Lemma GetAppResourcesPath_only_reads_witness :
  let run := GetAppResourcesPath_unix Linux lost_env
               (SimFS.world writable_install) in
  fst run = Thrown (filesystem_error [])
  /\ w_fs (snd run) = w_fs (SimFS.world writable_install)
  /\ w_statics (snd run) = w_statics (SimFS.world writable_install)
  /\ forall e, fst run = Thrown e ->
               e = filesystem_error [] /\ current_path lost_env = None.
Proof.
  split; [reflexivity|].
  exact (GetAppResourcesPath_only_reads Linux
           (fun env => GetAppResourcesPath_unix Linux env)
           lost_env (SimFS.world writable_install) eq_refl eq_refl).
Defined.

(** Witness of X1: [CSIDL_APPDATA] with [CSIDL_FLAG_CREATE] (0x8000) set. *)
Lemma GetPathFromCsidl_low_byte_witness :
  exists f : Z -> Env -> M (gmap path Node) path,
    GetPathFromCsidl Win32Desktop = Some f
    /\ f (Z.lor CSIDL_APPDATA 32768) win32_env (SimFS.world win32_install)
       = f CSIDL_APPDATA win32_env (SimFS.world win32_install)
    /\ fst (f (Z.lor CSIDL_APPDATA 32768) win32_env (SimFS.world win32_install))
       = Returned ["C:"; "\"; "Games"; "TeknoParrot"; "AppData"; "Roaming"].
Proof.
  eexists. split; [reflexivity|]. split; [|vm_compute; reflexivity].
  exact (proj1 (GetPathFromCsidl_low_byte Win32Desktop _
                  CSIDL_APPDATA 32768 win32_env (SimFS.world win32_install)
                  eq_refl eq_refl)).
Defined.

(** Witness of X2: on the sample Windows machine [GetCachePath] returns
    [Cache] under what [GetPathFromCsidl] names for [CSIDL_LOCAL_APPDATA]. *)
Lemma GetPathFromCsidl_names_resolver_paths_witness :
  exists (f : Z -> Env -> M (gmap path Node) path) q,
    GetPathFromCsidl Win32Desktop = Some f
    /\ fst (f CSIDL_LOCAL_APPDATA win32_env (SimFS.world win32_install))
       = Returned q
    /\ ["C:"; "\"; "Games"; "TeknoParrot"; "AppData"; "Local"; "Cache"]
       = path_append q "Cache".
Proof.
  destruct (GetPathFromCsidl_names_resolver_paths
              Win32Desktop _ _ _ _ win32_env (SimFS.world win32_install)
              eq_refl eq_refl eq_refl eq_refl)
    as (_ & _ & _ & Hcache).
  destruct (Hcache ["C:"; "\"; "Games"; "TeknoParrot"; "AppData"; "Local"; "Cache"]
                   eq_refl) as (q & Hq & Hp).
  eexists _, q. split; [reflexivity|]. split; [exact Hq | exact Hp].
Defined.

(** ** Ensuring a path ensures the paths above it *)

Section EnsureParents.
Context {FS : Type} `{FileSystemLaws FS}.

Lemma loop_noop_when_present pl rest : forall built (w : World FS),
  (forall k, 1 <= k <= length rest ->
     verdict pl (fst (fs_exists (w_fs w) (built ++ take k rest)))
                (snd (fs_exists (w_fs w) (built ++ take k rest))) = Present) ->
  fst (EnsurePathExists_loop pl built rest w) = Returned tt
  /\ w_fs (snd (EnsurePathExists_loop pl built rest w)) = w_fs w.
Proof.
  induction rest as [|e rest IH]; intros built w Hall; [done|].
  rewrite loop_cons, body_run.
  pose proof (Hall 1 ltac:(simpl; lia)) as H1. simpl in H1. rewrite take_0 in H1.
  change (built ++ [e]) with (path_append built e) in H1. rewrite H1.
  match goal with |- context [EnsurePathExists_loop pl _ rest ?x] =>
    destruct (IH (path_append built e) x) as [Hr Hs] end.
  { intros k Hk. cbn [w_fs]. rewrite take_S_cons_app.
    apply Hall. simpl. lia. }
  split; [exact Hr | exact Hs].
Qed.

Lemma present_or_denied_verdict pl (a : bool * Z) :
  a = (true, 0%Z) \/ (def_WIN32 pl = true /\ snd a = ERROR_ACCESS_DENIED) ->
  verdict pl (fst a) (snd a) = Present.
Proof.
  intros [->|[Hw Hec]]; [done|]. rewrite verdict_cases, Hw, Hec. done.
Qed.

(** X11. Once [EnsurePathExists] has returned normally for a path, calling it
    for any path above that one returns normally too and changes nothing in
    the filesystem. *)
Theorem EnsurePathExists_covers_parents pl (p q : path) (w : World FS) :
  fst (EnsurePathExists pl (p ++ q) w) = Returned tt ->
  let w' := snd (EnsurePathExists pl (p ++ q) w) in
  fst (EnsurePathExists pl p w') = Returned tt
  /\ w_fs (snd (EnsurePathExists pl p w')) = w_fs w'.
Proof.
  intros Hres w'. apply loop_noop_when_present.
  intros k Hk. apply present_or_denied_verdict. cbn [app].
  replace (take k p) with (take k (p ++ q)) by (apply take_app_le; lia).
  apply (loop_returned_all_present pl (p ++ q) [] w Hres).
  rewrite length_app. lia.
Qed.

(** X12. A data resolver that returns leaves the base directory itself in
    place: the creation of the base directory that
    [GetTeknoParrotBaseDirectory] lets fail in silence is made up for, or
    ends in an exception, before any path under it is handed out. *)
Theorem data_resolver_leaves_base_present
        pl f env (w w1 : World FS) (p : path) :
  data_resolver pl f ->
  f env w = (Returned p, w1) ->
  exists base,
    fst (GetTeknoParrotBaseDirectory pl env w) = Returned base
    /\ base `prefix_of` p
    /\ (base <> [] ->
        fs_exists (w_fs w1) base = (true, 0%Z)
        \/ (def_WIN32 pl = true
            /\ snd (fs_exists (w_fs w1) base) = ERROR_ACCESS_DENIED)).
Proof.
  intros (sub & _ & ->)%data_resolver_form Hrun.
  destruct (GetTeknoParrotBaseDirectory pl env w) as [[base|e0|] w0] eqn:Hb;
    [|by unfold ensured_under_base, bind in Hrun; rewrite Hb in Hrun..].
  exists base. split; [done|].
  rewrite (ensured_under_base_run pl env sub w w0 base Hb) in Hrun.
  destruct (EnsurePathExists pl (path_concat base sub) w0) as [[[]|e|] w2] eqn:Hens;
    [|done|done].
  injection Hrun as <- <-. split; [by apply prefix_app_r|].
  intros Hne.
  pose proof (loop_returned_all_present pl (path_concat base sub) [] w0) as Hall.
  unfold EnsurePathExists in Hens. rewrite Hens in Hall.
  specialize (Hall eq_refl (length base)).
  cbn [app snd] in Hall. unfold path_concat in Hall.
  rewrite take_app_length in Hall. apply Hall.
  rewrite length_app. destruct base; [done|]. simpl. lia.
Qed.

End EnsureParents.

(** Witness of X11: after [/opt/app/TeknoParrot/Cache] has been ensured,
    ensuring [/opt/app/TeknoParrot] is a no-op. *)
Lemma EnsurePathExists_covers_parents_witness :
  let w' := snd (EnsurePathExists Linux
                   (["/"; "opt"; "app"; "TeknoParrot"] ++ ["Cache"])
                   (SimFS.world writable_install)) in
  fst (EnsurePathExists Linux ["/"; "opt"; "app"; "TeknoParrot"] w') = Returned tt
  /\ w_fs (snd (EnsurePathExists Linux ["/"; "opt"; "app"; "TeknoParrot"] w'))
     = w_fs w'.
Proof.
  exact (EnsurePathExists_covers_parents
           Linux ["/"; "opt"; "app"; "TeknoParrot"] ["Cache"]
           (SimFS.world writable_install) eq_refl).
Defined.

(** Witness of X12: [GetCachePath] on the sample Linux machine. *)
Lemma data_resolver_leaves_base_present_witness :
  let run := ensured_under_base Linux unix_env ["Cache"]
               (SimFS.world writable_install) in
  exists base,
    fst (GetTeknoParrotBaseDirectory Linux unix_env (SimFS.world writable_install))
    = Returned base
    /\ base `prefix_of` ["/"; "opt"; "app"; "TeknoParrot"; "Cache"]
    /\ (base <> [] ->
        fs_exists (w_fs (snd run)) base = (true, 0%Z)
        \/ (def_WIN32 Linux = true
            /\ snd (fs_exists (w_fs (snd run)) base) = ERROR_ACCESS_DENIED)).
Proof.
  exact (data_resolver_leaves_base_present Linux
           (fun env => ensured_under_base Linux env ["Cache"])
           unix_env (SimFS.world writable_install)
           (snd (ensured_under_base Linux unix_env ["Cache"]
                   (SimFS.world writable_install)))
           ["/"; "opt"; "app"; "TeknoParrot"; "Cache"]
           (or_intror (or_intror eq_refl)) eq_refl).
Defined.
